(** * grist-core: the behavioral-prompts manager and the REST API client

    A shallow embedding of two client-side modules:

    - [BehavioralPrompts]: the class [BehavioralPromptsManager], which
      queues "first-time tip" popups and gates them on the user's
      preferences;
    - [UserAPI]: the classes [UserAPIImpl], [DocWorkerAPIImpl] and
      [DocAPIImpl], thin wrappers that turn method calls into calls of the
      request primitives inherited from [BaseAPI]. *)

From Stdlib Require Import ZArith String Ascii Lia.
From stdpp Require Import base option list strings gmap.

Local Open Scope string_scope.
Local Open Scope list_scope.
Local Open Scope nat_scope.
Set Warnings "-register-all".

(** ** The behavioral-prompts manager *)

Module BehavioralPrompts.

(** A [BehavioralPrompt] is the name of a tip; the preferences store names
    as plain strings. *)
Definition BehavioralPrompt := string.

(** DOM elements, popup options and callbacks are opaque handles. *)
Definition Element := nat.
Definition IPopupOptions := nat.
Definition Callback := nat.

(** interface AttachOptions *)
Record AttachOptions := {
  hideArrow : option bool;
  popupOptions : option IPopupOptions;
  onDispose : option Callback
}.

(** interface QueuedTip *)
Record QueuedTip := {
  prompt : BehavioralPrompt;
  refElement : Element;
  options : AttachOptions
}.

(** interface BehavioralPromptPrefs, the value held by the observable
    [_prefs]. *)
Record BehavioralPromptPrefs := {
  dontShowTips : bool;
  dismissedTips : list BehavioralPrompt
}.

(** The default value given to [getUserPrefObs]. *)
Definition defaultValue : BehavioralPromptPrefs :=
  {| dontShowTips := false; dismissedTips := [] |}.

(** A popup controller returned by [showBehavioralPrompt]: the tip it was
    opened for and whether the controller has been disposed. *)
Record Popup := {
  tip : QueuedTip;
  disposed : bool
}.

(** The manager together with the popups it has opened so far, oldest
    first; a controller is named by its position in [popups].  The
    preferences are written by the manager only. *)
Record Manager := {
  _prefs : BehavioralPromptPrefs;
  _queuedTips : list QueuedTip;
  popups : list Popup
}.

(** What [_queueTip] reads from its surroundings: [getGristConfig().survey]
    (as a truth value) and [isNarrowScreen()]. *)
Record Env := {
  survey : bool;
  narrowScreen : bool
}.

(** A JavaScript [Set] keeps its elements in insertion order, and adding a
    member that is already present changes nothing. *)
Definition set_add (x : string) (s : list string) : list string :=
  if bool_decide (x ∈ s) then s else s ++ [x].

(** [new Set(iterable)] *)
Definition new_Set (l : list string) : list string :=
  foldl (fun s x => set_add x s) [] l.

Section Manager.

(** [BehavioralPrompt.guard], the runtime check that a string names a
    known tip (declared in app/common/Prefs). *)
Variable guard : string -> bool.

(** The computed [_dismissedTips]. *)
Definition _dismissedTips (m : Manager) : list BehavioralPrompt :=
  new_Set (filter (fun s => guard s = true) (dismissedTips (_prefs m))).

Definition hasSeenTip (m : Manager) (p : BehavioralPrompt) : bool :=
  bool_decide (p ∈ _dismissedTips m).

(** [_showTip]: opens a popup for the tip, with the title and content that
    the table [GristBehavioralPrompts] has for it.  The callbacks it
    registers on the controller are the events [PopupOnClose] and
    [PopupClose] below. *)
Definition _showTip (t : QueuedTip) (m : Manager) : Manager :=
  {| _prefs := _prefs m;
     _queuedTips := _queuedTips m;
     popups := popups m ++ [{| tip := t; disposed := false |}] |}.

(** The condition under which [_queueTip] returns at once. *)
Definition hidden (env : Env) (p : BehavioralPrompt) (m : Manager) : bool :=
  negb (survey env) || narrowScreen env || dontShowTips (_prefs m) || hasSeenTip m p.

Definition _queueTip (env : Env) (el : Element) (p : BehavioralPrompt)
    (o : AttachOptions) (m : Manager) : Manager :=
  if hidden env p m then m
  else
    let t := {| prompt := p; refElement := el; options := o |} in
    let m1 := {| _prefs := _prefs m;
                 _queuedTips := _queuedTips m ++ [t];
                 popups := popups m |} in
    if (1 <? length (_queuedTips m1))%nat then m1 else _showTip t m1.

Definition showTip (env : Env) (el : Element) (p : BehavioralPrompt)
    (o : AttachOptions) (m : Manager) : Manager :=
  _queueTip env el p o m.

(** [attachTip] returns a function of the element; the function queues the
    tip when it is applied. *)
Definition attachTip (p : BehavioralPrompt) (o : AttachOptions)
    : Element -> Env -> Manager -> Manager :=
  fun el env m => _queueTip env el p o m.

Definition _showNextQueuedTip (m : Manager) : Manager :=
  let m1 := {| _prefs := _prefs m;
               _queuedTips := tail (_queuedTips m);
               popups := popups m |} in
  match _queuedTips m1 with
  | [] => m1
  | nextTip :: _ => _showTip nextTip m1
  end.

Definition _markAsSeen (p : BehavioralPrompt) (m : Manager) : Manager :=
  let newDismissedTips := set_add p (new_Set (dismissedTips (_prefs m))) in
  {| _prefs := {| dontShowTips := dontShowTips (_prefs m);
                  dismissedTips := newDismissedTips |};
     _queuedTips := _queuedTips m;
     popups := popups m |}.

Definition _dontShowTips (m : Manager) : Manager :=
  {| _prefs := {| dontShowTips := true;
                  dismissedTips := dismissedTips (_prefs m) |};
     _queuedTips := [];
     popups := popups m |}.

(** The [onClose] callback that [_showTip] hands to the popup. *)
Definition onClose (p : BehavioralPrompt) (dontShow : bool) (m : Manager) : Manager :=
  _markAsSeen p (if dontShow then _dontShowTips m else m).

Definition dispose (pp : Popup) : Popup :=
  {| tip := tip pp; disposed := true |}.

(** The local function [close] of [_showTip], for the controller [ctl]:
    nothing happens when the controller is already disposed; otherwise the
    controller closes, which disposes it and runs the handler registered
    with [ctl.onDispose].  The tip's own [onDispose] callback runs first and
    has no access to the manager. *)
Definition close (ctl : nat) (m : Manager) : Manager :=
  match popups m !! ctl with
  | Some pp =>
      if disposed pp then m
      else _showNextQueuedTip
             {| _prefs := _prefs m;
                _queuedTips := _queuedTips m;
                popups := alter dispose ctl (popups m) |}
  | None => m
  end.

(** What can happen to the manager: a tip is requested ([showTip], or the
    function returned by [attachTip] is applied), a popup reports that the
    user closed it with the "don't show tips" box in the given state, or a
    popup goes away (a click on the reference element, the disposal of that
    element, or the popup closing itself).  [showBehavioralPrompt] is
    declared in app/client/components/modals; nothing is assumed about when
    a popup calls back, or how often. *)
Inductive Event :=
| QueueTip (env : Env) (el : Element) (p : BehavioralPrompt) (o : AttachOptions)
| PopupOnClose (ctl : nat) (dontShow : bool)
| PopupClose (ctl : nat).

Definition step (m : Manager) (e : Event) : Manager :=
  match e with
  | QueueTip env el p o => _queueTip env el p o m
  | PopupOnClose ctl dontShow =>
      match popups m !! ctl with
      | Some pp => onClose (prompt (tip pp)) dontShow m
      | None => m
      end
  | PopupClose ctl => close ctl m
  end.

Definition run (evs : list Event) (m : Manager) : Manager :=
  foldl step m evs.

(** A freshly constructed manager, with the preferences the user has. *)
Definition init (prefs : BehavioralPromptPrefs) : Manager :=
  {| _prefs := prefs; _queuedTips := []; popups := [] |}.

(** The tips pushed on the queue by an event, and during a run. *)
Definition pushed_by (m : Manager) (e : Event) : list QueuedTip :=
  match e with
  | QueueTip env el p o =>
      if hidden env p m then []
      else [{| prompt := p; refElement := el; options := o |}]
  | _ => []
  end.

Fixpoint pushed (evs : list Event) (m : Manager) : list QueuedTip :=
  match evs with
  | [] => []
  | e :: evs' => pushed_by m e ++ pushed evs' (step m e)
  end.

(** The tips for which a popup has been opened, in the order of opening. *)
Definition shown (m : Manager) : list QueuedTip := tip <$> popups m.


End Manager.

(** *** The invariants of the manager *)

(** Every popup but the latest is disposed; while the queue is not empty
    the latest popup is on screen and is that of the head of the queue; a
    manager with an empty queue has a popup on screen only after "don't
    show tips". *)
Record one_at_a_time (m : Manager) : Prop := {
  oat_latest : forall i pp,
    popups m !! i = Some pp -> disposed pp = false -> S i = length (popups m);
  oat_head : forall t q,
    _queuedTips m = t :: q ->
    exists pp, last (popups m) = Some pp /\ disposed pp = false /\ tip pp = t;
  oat_idle :
    _queuedTips m = [] -> dontShowTips (_prefs m) = false ->
    Forall (fun pp => disposed pp = true) (popups m)
}.

(** The tips pushed so far are the tips shown so far followed by the tips
    that wait behind the head of the queue; once "don't show tips" has
    emptied the queue, the tips shown are a prefix of the tips pushed. *)
Definition in_order (m : Manager) (P : list QueuedTip) : Prop :=
  (dontShowTips (_prefs m) = false -> P = shown m ++ tail (_queuedTips m)) /\
  (dontShowTips (_prefs m) = true -> _queuedTips m = [] /\ shown m `prefix_of` P).

End BehavioralPrompts.

(** ** JavaScript values and [JSON.stringify] *)

Module JS.

(** The values that travel through the API client.  Numbers are the
    integers used as identifiers; an object lists its own enumerable
    properties in enumeration order. *)
Inductive JSValue :=
| JUndefined
| JNull
| JBool (b : bool)
| JNum (n : Z)
| JStr (s : string)
| JArr (items : list JSValue)
| JObj (props : list (string * JSValue)).

(** The double quote character. *)
Definition dq : ascii := ascii_of_nat 34.

Definition hex_digit (n : nat) : ascii :=
  if (n <? 10)%nat then ascii_of_nat (48 + n) else ascii_of_nat (87 + n).

(** QuoteJSONString on one character: the two-character escapes, a
    [\u00XX] escape for the other control characters, and the character
    itself otherwise. *)
Definition escape_char (c : ascii) : string :=
  let n := nat_of_ascii c in
  if (n =? 8)%nat then "\b"
  else if (n =? 9)%nat then "\t"
  else if (n =? 10)%nat then "\n"
  else if (n =? 12)%nat then "\f"
  else if (n =? 13)%nat then "\r"
  else if (n =? 34)%nat then String "\" (String dq EmptyString)
  else if (n =? 92)%nat then "\\"
  else if (n <? 32)%nat then
    "\u00" +:+ String (hex_digit (n / 16)) (String (hex_digit (n mod 16)) EmptyString)
  else String c EmptyString.

Fixpoint escape (s : string) : string :=
  match s with
  | EmptyString => EmptyString
  | String c s' => escape_char c +:+ escape s'
  end.

Definition quote (s : string) : string :=
  String dq (escape s +:+ String dq EmptyString).

(** [String(n)] and [`${n}`] for an integer [n]. *)
Definition digit (n : nat) : ascii := ascii_of_nat (48 + n).

Fixpoint digits (fuel : nat) (n : nat) (acc : string) : string :=
  match fuel with
  | O => acc
  | S fuel' =>
      let acc' := String (digit (n mod 10)) acc in
      if (n <? 10)%nat then acc' else digits fuel' (n / 10) acc'
  end.

Definition Number_toString (z : Z) : string :=
  let n := Z.to_nat (Z.abs z) in
  let d := digits (S n) n EmptyString in
  if (z <? 0)%Z then String "-" d else d.

Fixpoint join (sep : string) (l : list string) : string :=
  match l with
  | [] => EmptyString
  | [x] => x
  | x :: l' => x +:+ sep +:+ join sep l'
  end.

(** [JSON.stringify(v)], which is [undefined] ([None]) for [undefined].
    An [undefined] array item is written [null]; a property whose value is
    [undefined] is left out. *)
Fixpoint JSON_stringify (v : JSValue) : option string :=
  match v with
  | JUndefined => None
  | JNull => Some "null"
  | JBool true => Some "true"
  | JBool false => Some "false"
  | JNum n => Some (Number_toString n)
  | JStr s => Some (quote s)
  | JArr items =>
      let item :=
        fix item (l : list JSValue) : list string :=
          match l with
          | [] => []
          | x :: l' => default "null" (JSON_stringify x) :: item l'
          end in
      Some ("[" +:+ join "," (item items) +:+ "]")
  | JObj props =>
      let member :=
        fix member (l : list (string * JSValue)) : list string :=
          match l with
          | [] => []
          | (k, x) :: l' =>
              match JSON_stringify x with
              | Some s => (quote k +:+ ":" +:+ s) :: member l'
              | None => member l'
              end
          end in
      Some ("{" +:+ join "," (member props) +:+ "}")
  end.

(** Property access [v.k]: a [TypeError] ([None]) on [undefined] and
    [null], the property's value on an object that has it, and [undefined]
    in every other case. *)
Fixpoint lookup_prop (k : string) (l : list (string * JSValue)) : JSValue :=
  match l with
  | [] => JUndefined
  | (k', x) :: l' => if bool_decide (k = k') then x else lookup_prop k l'
  end.

Definition get_prop (v : JSValue) (k : string) : option JSValue :=
  match v with
  | JUndefined | JNull => None
  | JObj props => Some (lookup_prop k props)
  | _ => Some JUndefined
  end.

End JS.

(** ** The API client *)

Module UserAPI.
Import JS.

Inductive Method := GET | POST | PATCH | DELETE.

Definition Headers := list (string * string).

(** type UploadType = string | Blob | Buffer *)
Inductive UploadType :=
| UString (s : string)
| UBlob (content : string)
| UBuffer (content : string).

(** A [FormData] is the list of the entries appended to it.  The form
    itself comes from [newFormData] of [BaseAPI], which depends on the
    platform; it is taken to accept every entry. *)
Record FormEntry := {
  entry_name : string;
  entry_value : UploadType;
  entry_filename : option string
}.

Definition FormData := list FormEntry.

Inductive Body :=
| BodyText (s : string)
| BodyForm (f : FormData).

(** The fields of [RequestInit] that the client sets. *)
Record RequestInit := {
  method : option Method;
  body : option Body;
  headers : option Headers;
  credentials : option string
}.

(** The object [{}]. *)
Definition no_init : RequestInit :=
  {| method := None; body := None; headers := None; credentials := None |}.

(** The request configuration handed to [requestAxios]; the progress
    callback is an opaque handle. *)
Record AxiosRequestConfig := {
  axios_headers : option Headers;
  axios_method : option Method;
  axios_data : FormData;
  axios_onUploadProgress : option nat
}.

(** A [Response]: its status and the text of its body.  [ok] is the
    platform's definition, a status in the range 200 to 299. *)
Record Response := {
  status : Z;
  text : string
}.

Definition ok (r : Response) : bool :=
  (200 <=? status r)%Z && (status r <=? 299)%Z.

Record AxiosResponse := {
  data : JSValue
}.

(** What a promise is rejected with. *)
Inductive Exn :=
| Error (message : string)
| TypeError (message : string).

(** The value of an entry of [IOptions]: the request headers, the map of
    extra query parameters, or one of the platform hooks ([fetch],
    [newFormData], [logger]), which is an opaque handle. *)
Inductive OptValue :=
| VHeaders (h : Headers)
| VParams (m : gmap string string)
| VHook (handle : nat).

(** An [IOptions] object, by property name. *)
Abbreviation IOptions := (gmap string OptValue).

(** [options.headers] *)
Definition options_headers (o : IOptions) : option Headers :=
  match o !! "headers" with
  | Some (VHeaders h) => Some h
  | _ => None
  end.

(** Modelled from the spec: the request primitives a client inherits from
    [BaseAPI] (app/common/BaseAPI, not among the sources).  The client is "a
    direct one-to-one mapping from method calls to HTTP requests", without
    caching or retry logic of its own, so a call of a primitive stands for
    one HTTP request to the URL it is given, with the method, headers and
    body of the request description it is given.  What the request
    resolves to is left to the peer (see [exec]). *)
Inductive BaseCall :=
| request (input : string) (init : RequestInit)
| requestJson (input : string) (init : RequestInit)
| fetch (input : string) (init : RequestInit)
| requestAxios (input : string) (config : AxiosRequestConfig).

(** What the promise returned by a primitive resolves to. *)
Definition answer (c : BaseCall) : Type :=
  match c with
  | request _ _ => Response
  | requestJson _ _ => JSValue
  | fetch _ _ => Response
  | requestAxios _ _ => AxiosResponse
  end.

(** An [async] method body: it returns, throws, or awaits a primitive and
    goes on with what the primitive resolved to. *)
Inductive prog (A : Type) :=
| Ret (a : A)
| Throw (e : Exn)
| Call (c : BaseCall) (k : answer c -> prog A).

Arguments Ret {A} a.
Arguments Throw {A} e.
Arguments Call {A} c k.

Fixpoint bind {A B} (p : prog A) (f : A -> prog B) : prog B :=
  match p with
  | Ret a => f a
  | Throw e => Throw e
  | Call c k => Call c (fun x => bind (k x) f)
  end.

(** [await] of a primitive. *)
Definition await (c : BaseCall) : prog (answer c) := Call c Ret.

Notation "x <- p ;; q" := (bind p (fun x => q))
  (at level 100, p at next level, right associativity).

(** The outcome of running a method: the state the other side is left in,
    the primitive calls made, in order, and the settled promise. *)
Record Outcome (W A : Type) := {
  world : W;
  issued : list BaseCall;
  settled : Exn + A
}.

Arguments world {W A} o.
Arguments issued {W A} o.
Arguments settled {W A} o.

(** Running a method against a peer: [respond] settles each primitive call
    (a rejection or a value) and moves the peer to its next state.  An
    awaited rejection rejects the method. *)
Fixpoint exec {W A} (respond : W -> forall c : BaseCall, W * (Exn + answer c))
    (p : prog A) (w : W) : Outcome W A :=
  match p with
  | Ret a => {| world := w; issued := []; settled := inr a |}
  | Throw e => {| world := w; issued := []; settled := inl e |}
  | Call c k =>
      match respond w c with
      | (w', inl e) => {| world := w'; issued := [c]; settled := inl e |}
      | (w', inr x) =>
          let o := exec respond (k x) w' in
          {| world := world o; issued := c :: issued o; settled := settled o |}
      end
  end.

(** [base.replace(/\/$/, '')]: one slash at the end of the string is
    dropped. *)
Fixpoint strip_trailing_slash (s : string) : string :=
  match s with
  | EmptyString => EmptyString
  | String c EmptyString => if bool_decide (c = "/"%char) then EmptyString else s
  | String c s' => String c (strip_trailing_slash s')
  end.

(** [number|string], as in [orgId], and its rendering in a template
    literal. *)
Inductive NumOrStr :=
| Num (n : Z)
| Str (s : string).

Definition render (x : NumOrStr) : string :=
  match x with
  | Num n => Number_toString n
  | Str s => s
  end.

(** Truthiness of a string: [if (s)]. *)
Definition truthy (s : string) : bool :=
  negb (bool_decide (s = EmptyString)).

(** The private fields of [UserAPIImpl]. *)
Record UserAPIImpl := {
  _homeUrl : string;
  _options : IOptions
}.

(** The fields of [DocWorkerAPIImpl]. *)
Record DocWorkerAPIImpl := {
  url : string;
  worker_options : IOptions
}.

(** The fields of [DocAPIImpl] and the options given to its base class. *)
Record DocAPIImpl := {
  doc_url : string;
  docId : string;
  doc_options : IOptions
}.

(** class BillingAPIImpl (declared in app/common/BillingAPI), by the
    arguments of its constructor. *)
Record BillingAPIImpl := {
  billing_url : string;
  billing_options : IOptions
}.

(** [new DocAPIImpl(url, docId, options)] *)
Definition new_DocAPIImpl (u : string) (d : string) (o : IOptions) : DocAPIImpl :=
  {| doc_url := u +:+ "/api/docs/" +:+ d; docId := d; doc_options := o |}.

(** [{method: m}] and [{method: m, body: b}] *)
Definition with_method (m : Method) : RequestInit :=
  {| method := Some m; body := None; headers := None; credentials := None |}.

Definition with_body (m : Method) (b : option string) : RequestInit :=
  {| method := Some m; body := BodyText <$> b; headers := None; credentials := None |}.

(** [json.k] on what [requestJson] resolved to. *)
Definition prop_of (json : JSValue) (k : string) : prog JSValue :=
  match get_prop json k with
  | Some v => Ret v
  | None => Throw (TypeError ("Cannot read properties of " +:+
                              (if json is JNull then "null" else "undefined") +:+
                              " (reading '" +:+ k +:+ "')"))
  end.

Section Client.

(** [isClient()] (app/common/gristUrls) and [addCurrentOrgToPath]
    (app/common/urlUtils) read the page the code runs in. *)
Variable isClient : bool.
Variable addCurrentOrgToPath : string -> string.

(** The platform's [URL]: [URL_href s ps] is the [href] of [new URL(s)]
    once the pairs [ps] have been appended to its [searchParams], and
    [None] when the constructor throws. *)
Variable URL_href : string -> list (string * string) -> option string.

(** *** class UserAPIImpl *)

Definition _urlWithOrg (base : string) : string :=
  if isClient then addCurrentOrgToPath base else strip_trailing_slash base.

Definition _url (this : UserAPIImpl) : string := _urlWithOrg (_homeUrl this).

Definition getBaseUrl (this : UserAPIImpl) : string := _url this.

(** The object [forRemoved] constructs. *)
Definition forRemoved_instance (this : UserAPIImpl) : UserAPIImpl :=
  let extraParameters : gmap string string := {[ "showRemoved" := "1" ]} in
  {| _homeUrl := _homeUrl this;
     _options := <[ "extraParameters" := VParams extraParameters ]> (_options this) |}.

Definition getSessionActive (this : UserAPIImpl) : prog JSValue :=
  await (requestJson (_url this +:+ "/api/session/access/active") (with_method GET)).

Definition setSessionActive (this : UserAPIImpl) (email : string) : prog JSValue :=
  let body := JSON_stringify (JObj [("email", JStr email)]) in
  await (requestJson (_url this +:+ "/api/session/access/active") (with_body POST body)).

Definition getSessionAll (this : UserAPIImpl) : prog JSValue :=
  await (requestJson (_url this +:+ "/api/session/access/all") (with_method GET)).

Definition getOrgs (this : UserAPIImpl) (merged : option bool) : prog JSValue :=
  let merged := default false merged in
  await (requestJson (_url this +:+ "/api/orgs?merged=" +:+ (if merged then "1" else "0"))
           (with_method GET)).

Definition getWorkspace (this : UserAPIImpl) (workspaceId : Z) : prog JSValue :=
  await (requestJson (_url this +:+ "/api/workspaces/" +:+ Number_toString workspaceId)
           (with_method GET)).

Definition getOrg (this : UserAPIImpl) (orgId : NumOrStr) : prog JSValue :=
  await (requestJson (_url this +:+ "/api/orgs/" +:+ render orgId) (with_method GET)).

Definition getOrgWorkspaces (this : UserAPIImpl) (orgId : NumOrStr) : prog JSValue :=
  await (requestJson (_url this +:+ "/api/orgs/" +:+ render orgId +:+ "/workspaces?includeSupport=1")
           (with_method GET)).

Definition getDoc (this : UserAPIImpl) (docId : string) : prog JSValue :=
  await (requestJson (_url this +:+ "/api/docs/" +:+ docId) (with_method GET)).

Definition newOrg (this : UserAPIImpl) (props : JSValue) : prog JSValue :=
  await (requestJson (_url this +:+ "/api/orgs") (with_body POST (JSON_stringify props))).

Definition newWorkspace (this : UserAPIImpl) (props : JSValue) (orgId : NumOrStr) : prog JSValue :=
  await (requestJson (_url this +:+ "/api/orgs/" +:+ render orgId +:+ "/workspaces")
           (with_body POST (JSON_stringify props))).

Definition newDoc (this : UserAPIImpl) (props : JSValue) (workspaceId : Z) : prog JSValue :=
  await (requestJson (_url this +:+ "/api/workspaces/" +:+ Number_toString workspaceId +:+ "/docs")
           (with_body POST (JSON_stringify props))).

Definition newUnsavedDoc (this : UserAPIImpl) (options : option JSValue) : prog JSValue :=
  let options := default (JObj []) options in
  await (requestJson (_url this +:+ "/api/docs") (with_body POST (JSON_stringify options))).

Definition renameOrg (this : UserAPIImpl) (orgId : NumOrStr) (name : string) : prog unit :=
  _ <- await (request (_url this +:+ "/api/orgs/" +:+ render orgId)
                (with_body PATCH (JSON_stringify (JObj [("name", JStr name)])))) ;;
  Ret tt.

Definition renameWorkspace (this : UserAPIImpl) (workspaceId : Z) (name : string) : prog unit :=
  _ <- await (request (_url this +:+ "/api/workspaces/" +:+ Number_toString workspaceId)
                (with_body PATCH (JSON_stringify (JObj [("name", JStr name)])))) ;;
  Ret tt.

Definition updateDoc (this : UserAPIImpl) (docId : string) (props : JSValue) : prog unit :=
  _ <- await (request (_url this +:+ "/api/docs/" +:+ docId)
                (with_body PATCH (JSON_stringify props))) ;;
  Ret tt.

Definition renameDoc (this : UserAPIImpl) (docId : string) (name : string) : prog unit :=
  updateDoc this docId (JObj [("name", JStr name)]).

Definition deleteOrg (this : UserAPIImpl) (orgId : NumOrStr) : prog unit :=
  _ <- await (request (_url this +:+ "/api/orgs/" +:+ render orgId) (with_method DELETE)) ;;
  Ret tt.

Definition deleteWorkspace (this : UserAPIImpl) (workspaceId : Z) : prog unit :=
  _ <- await (request (_url this +:+ "/api/workspaces/" +:+ Number_toString workspaceId)
                (with_method DELETE)) ;;
  Ret tt.

Definition softDeleteWorkspace (this : UserAPIImpl) (workspaceId : Z) : prog unit :=
  _ <- await (request (_url this +:+ "/api/workspaces/" +:+ Number_toString workspaceId +:+ "/remove")
                (with_method POST)) ;;
  Ret tt.

Definition undeleteWorkspace (this : UserAPIImpl) (workspaceId : Z) : prog unit :=
  _ <- await (request (_url this +:+ "/api/workspaces/" +:+ Number_toString workspaceId +:+ "/unremove")
                (with_method POST)) ;;
  Ret tt.

Definition deleteDoc (this : UserAPIImpl) (docId : string) : prog unit :=
  _ <- await (request (_url this +:+ "/api/docs/" +:+ docId) (with_method DELETE)) ;;
  Ret tt.

Definition softDeleteDoc (this : UserAPIImpl) (docId : string) : prog unit :=
  _ <- await (request (_url this +:+ "/api/docs/" +:+ docId +:+ "/remove") (with_method POST)) ;;
  Ret tt.

Definition undeleteDoc (this : UserAPIImpl) (docId : string) : prog unit :=
  _ <- await (request (_url this +:+ "/api/docs/" +:+ docId +:+ "/unremove") (with_method POST)) ;;
  Ret tt.

Definition updateOrgPermissions (this : UserAPIImpl) (orgId : NumOrStr) (delta : JSValue) : prog unit :=
  _ <- await (request (_url this +:+ "/api/orgs/" +:+ render orgId +:+ "/access")
                (with_body PATCH (JSON_stringify (JObj [("delta", delta)])))) ;;
  Ret tt.

Definition updateWorkspacePermissions (this : UserAPIImpl) (workspaceId : Z) (delta : JSValue)
    : prog unit :=
  _ <- await (request (_url this +:+ "/api/workspaces/" +:+ Number_toString workspaceId +:+ "/access")
                (with_body PATCH (JSON_stringify (JObj [("delta", delta)])))) ;;
  Ret tt.

Definition updateDocPermissions (this : UserAPIImpl) (docId : string) (delta : JSValue) : prog unit :=
  _ <- await (request (_url this +:+ "/api/docs/" +:+ docId +:+ "/access")
                (with_body PATCH (JSON_stringify (JObj [("delta", delta)])))) ;;
  Ret tt.

Definition getOrgAccess (this : UserAPIImpl) (orgId : NumOrStr) : prog JSValue :=
  await (requestJson (_url this +:+ "/api/orgs/" +:+ render orgId +:+ "/access") (with_method GET)).

Definition getWorkspaceAccess (this : UserAPIImpl) (workspaceId : Z) : prog JSValue :=
  await (requestJson (_url this +:+ "/api/workspaces/" +:+ Number_toString workspaceId +:+ "/access")
           (with_method GET)).

Definition getDocAccess (this : UserAPIImpl) (docId : string) : prog JSValue :=
  await (requestJson (_url this +:+ "/api/docs/" +:+ docId +:+ "/access") (with_method GET)).

Definition pinDoc (this : UserAPIImpl) (docId : string) : prog unit :=
  _ <- await (request (_url this +:+ "/api/docs/" +:+ docId +:+ "/pin") (with_method PATCH)) ;;
  Ret tt.

Definition unpinDoc (this : UserAPIImpl) (docId : string) : prog unit :=
  _ <- await (request (_url this +:+ "/api/docs/" +:+ docId +:+ "/unpin") (with_method PATCH)) ;;
  Ret tt.

Definition moveDoc (this : UserAPIImpl) (docId : string) (workspaceId : Z) : prog unit :=
  _ <- await (request (_url this +:+ "/api/docs/" +:+ docId +:+ "/move")
                (with_body PATCH (JSON_stringify (JObj [("workspace", JNum workspaceId)])))) ;;
  Ret tt.

Definition getUserProfile (this : UserAPIImpl) : prog JSValue :=
  await (requestJson (_url this +:+ "/api/profile/user") no_init).

Definition updateUserName (this : UserAPIImpl) (name : string) : prog unit :=
  _ <- await (request (_url this +:+ "/api/profile/user/name")
                (with_body POST (JSON_stringify (JObj [("name", JStr name)])))) ;;
  Ret tt.

Definition getWorker (this : UserAPIImpl) (key : string) : prog JSValue :=
  json <- await (requestJson (_url this +:+ "/api/worker/" +:+ key)
                   {| method := Some GET; body := None; headers := None;
                      credentials := Some "include" |}) ;;
  prop_of json "docWorkerUrl".

(** [_urlWithOrg] needs a string: on anything else the call of [replace]
    is a [TypeError], and [addCurrentOrgToPath] is taken to fail alike. *)
Definition getWorkerAPI (this : UserAPIImpl) (key : string) : prog DocWorkerAPIImpl :=
  w <- getWorker this key ;;
  match w with
  | JStr base => Ret {| url := _urlWithOrg base; worker_options := _options this |}
  | _ => Throw (TypeError "base.replace is not a function")
  end.

Definition getBillingAPI (this : UserAPIImpl) : BillingAPIImpl :=
  {| billing_url := _url this; billing_options := _options this |}.

Definition getDocAPI (this : UserAPIImpl) (docId : string) : DocAPIImpl :=
  new_DocAPIImpl (_url this) docId (_options this).

Definition fetchApiKey (this : UserAPIImpl) : prog string :=
  resp <- await (fetch (_url this +:+ "/api/profile/apiKey")
                   {| method := None; body := None; headers := None;
                      credentials := Some "include" |}) ;;
  Ret (text resp).

Definition createApiKey (this : UserAPIImpl) : prog string :=
  res <- await (fetch (_url this +:+ "/api/profile/apiKey")
                  {| method := Some POST; body := None; headers := None;
                     credentials := Some "include" |}) ;;
  Ret (text res).

Definition deleteApiKey (this : UserAPIImpl) : prog unit :=
  _ <- await (fetch (_url this +:+ "/api/profile/apiKey")
                {| method := Some DELETE; body := None; headers := None;
                   credentials := Some "include" |}) ;;
  Ret tt.

Definition applyUserActions (this : UserAPIImpl) (docId : string) (actions : list JSValue)
    : prog JSValue :=
  await (requestJson (_url this +:+ "/api/docs/" +:+ docId +:+ "/apply")
           (with_body POST (JSON_stringify (JArr actions)))).

(** The [options] argument of [importUnsavedDoc]. *)
Record ImportOptions := {
  filename : option string;
  timezone : option string;
  onUploadProgress : option nat
}.

Definition importUnsavedDoc (this : UserAPIImpl) (material : UploadType)
    (options : option ImportOptions) : prog JSValue :=
  let options :=
    default {| filename := None; timezone := None; onUploadProgress := None |} options in
  let formData : FormData :=
    [{| entry_name := "upload"; entry_value := material; entry_filename := filename options |}] in
  let formData :=
    match timezone options with
    | Some tz =>
        if truthy tz
        then (formData ++ [{| entry_name := "timezone"; entry_value := UString tz;
                              entry_filename := None |}])%list
        else formData
    | None => formData
    end in
  resp <- await (requestAxios (_url this +:+ "/api/docs")
                   {| axios_headers := options_headers (_options this);
                      axios_method := Some POST;
                      axios_data := formData;
                      axios_onUploadProgress := onUploadProgress options |}) ;;
  Ret (data resp).

Definition deleteUser (this : UserAPIImpl) (userId : Z) (name : string) : prog unit :=
  _ <- await (request (_url this +:+ "/api/users/" +:+ Number_toString userId)
                (with_body DELETE (JSON_stringify (JObj [("name", JStr name)])))) ;;
  Ret tt.

(** *** class DocWorkerAPIImpl *)

Definition importDocToWorkspace (this : DocWorkerAPIImpl) (uploadId workspaceId : Z)
    (browserSettings : option JSValue) : prog JSValue :=
  let browserSettings := default JUndefined browserSettings in
  await (requestJson (url this +:+ "/api/workspaces/" +:+ Number_toString workspaceId +:+ "/import")
           (with_body POST (JSON_stringify
              (JObj [("uploadId", JNum uploadId); ("browserSettings", browserSettings)])))).

Definition upload (this : DocWorkerAPIImpl) (material : UploadType) (filename : option string)
    : prog JSValue :=
  let formData : FormData :=
    [{| entry_name := "upload"; entry_value := material; entry_filename := filename |}] in
  json <- await (requestJson (url this +:+ "/uploads")
                   {| method := Some POST; body := Some (BodyForm formData);
                      headers := options_headers (worker_options this);
                      credentials := None |}) ;;
  prop_of json "uploadId".

Definition downloadDoc (this : DocWorkerAPIImpl) (docId : string) (template : option bool)
    : prog Response :=
  let template := default false template in
  let extra := if template then "&template=1" else "" in
  result <- await (request (url this +:+ "/download?doc=" +:+ docId +:+ extra)
                     {| method := Some GET; body := None;
                        headers := options_headers (worker_options this);
                        credentials := None |}) ;;
  if negb (ok result) then Throw (Error (text result)) else Ret result.

Definition copyDoc (this : DocWorkerAPIImpl) (docId : string) (template : option bool)
    (name : option string) : prog JSValue :=
  let template := default false template in
  let params :=
    ((if template then [("template", "1")] else []) ++
     match name with
     | Some n => if truthy n then [("name", n)] else []
     | None => []
     end)%list in
  match URL_href (url this +:+ "/copy?doc=" +:+ docId) params with
  | None => Throw (TypeError "Invalid URL")
  | Some href =>
      json <- await (requestJson href
                       {| method := Some POST; body := None;
                          headers := options_headers (worker_options this);
                          credentials := None |}) ;;
      prop_of json "uploadId"
  end.

(** *** class DocAPIImpl *)

Definition getRows (this : DocAPIImpl) (tableId : string) : prog JSValue :=
  await (requestJson (doc_url this +:+ "/tables/" +:+ tableId +:+ "/data") no_init).

Definition updateRows (this : DocAPIImpl) (tableId : string) (changes : JSValue) : prog JSValue :=
  await (requestJson (doc_url this +:+ "/tables/" +:+ tableId +:+ "/data")
           (with_body PATCH (JSON_stringify changes))).

Definition addRows (this : DocAPIImpl) (tableId : string) (additions : JSValue) : prog JSValue :=
  await (requestJson (doc_url this +:+ "/tables/" +:+ tableId +:+ "/data")
           (with_body POST (JSON_stringify additions))).

Definition replace (this : DocAPIImpl) (source : JSValue) : prog JSValue :=
  await (requestJson (doc_url this +:+ "/replace") (with_body POST (JSON_stringify source))).

Definition getSnapshots (this : DocAPIImpl) : prog JSValue :=
  await (requestJson (doc_url this +:+ "/snapshots") no_init).

Definition forceReload (this : DocAPIImpl) : prog unit :=
  _ <- await (request (doc_url this +:+ "/force-reload") (with_method POST)) ;;
  Ret tt.

Definition compareState (this : DocAPIImpl) (remoteDocId : string) : prog JSValue :=
  await (requestJson (doc_url this +:+ "/compare/" +:+ remoteDocId) no_init).

(** [getTable] is a shortcut for [getDocAPI(docId).getRows(tableName)]. *)
Definition getTable (this : UserAPIImpl) (docId : string) (tableName : string) : prog JSValue :=
  getRows (getDocAPI this docId) tableName.

(** A call of one of the methods that issue a request, with the object
    it is called on and its arguments. *)
Inductive Invocation :=
| call_getSessionActive (this : UserAPIImpl)
| call_setSessionActive (this : UserAPIImpl) (email : string)
| call_getSessionAll (this : UserAPIImpl)
| call_getOrgs (this : UserAPIImpl) (merged : option bool)
| call_getWorkspace (this : UserAPIImpl) (workspaceId : Z)
| call_getOrg (this : UserAPIImpl) (orgId : NumOrStr)
| call_getOrgWorkspaces (this : UserAPIImpl) (orgId : NumOrStr)
| call_getDoc (this : UserAPIImpl) (docId : string)
| call_newOrg (this : UserAPIImpl) (props : JSValue)
| call_newWorkspace (this : UserAPIImpl) (props : JSValue) (orgId : NumOrStr)
| call_newDoc (this : UserAPIImpl) (props : JSValue) (workspaceId : Z)
| call_newUnsavedDoc (this : UserAPIImpl) (options : option JSValue)
| call_renameOrg (this : UserAPIImpl) (orgId : NumOrStr) (name : string)
| call_renameWorkspace (this : UserAPIImpl) (workspaceId : Z) (name : string)
| call_renameDoc (this : UserAPIImpl) (docId : string) (name : string)
| call_updateDoc (this : UserAPIImpl) (docId : string) (props : JSValue)
| call_deleteOrg (this : UserAPIImpl) (orgId : NumOrStr)
| call_deleteWorkspace (this : UserAPIImpl) (workspaceId : Z)
| call_softDeleteWorkspace (this : UserAPIImpl) (workspaceId : Z)
| call_undeleteWorkspace (this : UserAPIImpl) (workspaceId : Z)
| call_deleteDoc (this : UserAPIImpl) (docId : string)
| call_softDeleteDoc (this : UserAPIImpl) (docId : string)
| call_undeleteDoc (this : UserAPIImpl) (docId : string)
| call_updateOrgPermissions (this : UserAPIImpl) (orgId : NumOrStr) (delta : JSValue)
| call_updateWorkspacePermissions (this : UserAPIImpl) (workspaceId : Z) (delta : JSValue)
| call_updateDocPermissions (this : UserAPIImpl) (docId : string) (delta : JSValue)
| call_getOrgAccess (this : UserAPIImpl) (orgId : NumOrStr)
| call_getWorkspaceAccess (this : UserAPIImpl) (workspaceId : Z)
| call_getDocAccess (this : UserAPIImpl) (docId : string)
| call_pinDoc (this : UserAPIImpl) (docId : string)
| call_unpinDoc (this : UserAPIImpl) (docId : string)
| call_moveDoc (this : UserAPIImpl) (docId : string) (workspaceId : Z)
| call_getUserProfile (this : UserAPIImpl)
| call_updateUserName (this : UserAPIImpl) (name : string)
| call_getWorker (this : UserAPIImpl) (key : string)
| call_getWorkerAPI (this : UserAPIImpl) (key : string)
| call_fetchApiKey (this : UserAPIImpl)
| call_createApiKey (this : UserAPIImpl)
| call_deleteApiKey (this : UserAPIImpl)
| call_getTable (this : UserAPIImpl) (docId : string) (tableName : string)
| call_applyUserActions (this : UserAPIImpl) (docId : string) (actions : list JSValue)
| call_importUnsavedDoc (this : UserAPIImpl) (material : UploadType)
    (options : option ImportOptions)
| call_deleteUser (this : UserAPIImpl) (userId : Z) (name : string)
| call_importDocToWorkspace (this : DocWorkerAPIImpl) (uploadId workspaceId : Z)
    (browserSettings : option JSValue)
| call_upload (this : DocWorkerAPIImpl) (material : UploadType) (filename : option string)
| call_downloadDoc (this : DocWorkerAPIImpl) (docId : string) (template : option bool)
| call_copyDoc (this : DocWorkerAPIImpl) (docId : string) (template : option bool)
    (name : option string)
| call_getRows (this : DocAPIImpl) (tableId : string)
| call_updateRows (this : DocAPIImpl) (tableId : string) (changes : JSValue)
| call_addRows (this : DocAPIImpl) (tableId : string) (additions : JSValue)
| call_replace (this : DocAPIImpl) (source : JSValue)
| call_getSnapshots (this : DocAPIImpl)
| call_forceReload (this : DocAPIImpl)
| call_compareState (this : DocAPIImpl) (remoteDocId : string).

(** A method body together with the type of its result. *)
Definition method_body : Type := { A : Type & prog A }.

Definition pack {A} (p : prog A) : method_body := existT A p.

Definition invoke (i : Invocation) : method_body :=
  match i with
  | call_getSessionActive this => pack (getSessionActive this)
  | call_setSessionActive this email => pack (setSessionActive this email)
  | call_getSessionAll this => pack (getSessionAll this)
  | call_getOrgs this merged => pack (getOrgs this merged)
  | call_getWorkspace this workspaceId => pack (getWorkspace this workspaceId)
  | call_getOrg this orgId => pack (getOrg this orgId)
  | call_getOrgWorkspaces this orgId => pack (getOrgWorkspaces this orgId)
  | call_getDoc this docId => pack (getDoc this docId)
  | call_newOrg this props => pack (newOrg this props)
  | call_newWorkspace this props orgId => pack (newWorkspace this props orgId)
  | call_newDoc this props workspaceId => pack (newDoc this props workspaceId)
  | call_newUnsavedDoc this options => pack (newUnsavedDoc this options)
  | call_renameOrg this orgId name => pack (renameOrg this orgId name)
  | call_renameWorkspace this workspaceId name => pack (renameWorkspace this workspaceId name)
  | call_renameDoc this docId name => pack (renameDoc this docId name)
  | call_updateDoc this docId props => pack (updateDoc this docId props)
  | call_deleteOrg this orgId => pack (deleteOrg this orgId)
  | call_deleteWorkspace this workspaceId => pack (deleteWorkspace this workspaceId)
  | call_softDeleteWorkspace this workspaceId => pack (softDeleteWorkspace this workspaceId)
  | call_undeleteWorkspace this workspaceId => pack (undeleteWorkspace this workspaceId)
  | call_deleteDoc this docId => pack (deleteDoc this docId)
  | call_softDeleteDoc this docId => pack (softDeleteDoc this docId)
  | call_undeleteDoc this docId => pack (undeleteDoc this docId)
  | call_updateOrgPermissions this orgId delta => pack (updateOrgPermissions this orgId delta)
  | call_updateWorkspacePermissions this workspaceId delta =>
      pack (updateWorkspacePermissions this workspaceId delta)
  | call_updateDocPermissions this docId delta => pack (updateDocPermissions this docId delta)
  | call_getOrgAccess this orgId => pack (getOrgAccess this orgId)
  | call_getWorkspaceAccess this workspaceId => pack (getWorkspaceAccess this workspaceId)
  | call_getDocAccess this docId => pack (getDocAccess this docId)
  | call_pinDoc this docId => pack (pinDoc this docId)
  | call_unpinDoc this docId => pack (unpinDoc this docId)
  | call_moveDoc this docId workspaceId => pack (moveDoc this docId workspaceId)
  | call_getUserProfile this => pack (getUserProfile this)
  | call_updateUserName this name => pack (updateUserName this name)
  | call_getWorker this key => pack (getWorker this key)
  | call_getWorkerAPI this key => pack (getWorkerAPI this key)
  | call_fetchApiKey this => pack (fetchApiKey this)
  | call_createApiKey this => pack (createApiKey this)
  | call_deleteApiKey this => pack (deleteApiKey this)
  | call_getTable this docId tableName => pack (getTable this docId tableName)
  | call_applyUserActions this docId actions => pack (applyUserActions this docId actions)
  | call_importUnsavedDoc this material options => pack (importUnsavedDoc this material options)
  | call_deleteUser this userId name => pack (deleteUser this userId name)
  | call_importDocToWorkspace this uploadId workspaceId browserSettings =>
      pack (importDocToWorkspace this uploadId workspaceId browserSettings)
  | call_upload this material filename => pack (upload this material filename)
  | call_downloadDoc this docId template => pack (downloadDoc this docId template)
  | call_copyDoc this docId template name => pack (copyDoc this docId template name)
  | call_getRows this tableId => pack (getRows this tableId)
  | call_updateRows this tableId changes => pack (updateRows this tableId changes)
  | call_addRows this tableId additions => pack (addRows this tableId additions)
  | call_replace this source => pack (replace this source)
  | call_getSnapshots this => pack (getSnapshots this)
  | call_forceReload this => pack (forceReload this)
  | call_compareState this remoteDocId => pack (compareState this remoteDocId)
  end.

End Client.





(** A body that returns or throws without awaiting anything. *)
Definition quiet {A} (p : prog A) : Prop :=
  match p with
  | Call _ _ => False
  | _ => True
  end.

(** The store of [UserAPIImpl] objects, by address. *)
Abbreviation Heap := (gmap nat UserAPIImpl).

(** [forRemoved], called on the object at address [this]: the new object
    is allocated at an address not in use and its address is returned. *)
Definition forRemoved (this : nat) (h : Heap) : option (nat * Heap) :=
  match h !! this with
  | Some obj =>
      let l := fresh (dom h) in
      Some (l, <[ l := forRemoved_instance obj ]> h)
  | None => None
  end.

(** The extra query parameters an options object carries. *)
Definition extra_parameters (o : IOptions) : gmap string string :=
  match o !! "extraParameters" with
  | Some (VParams m) => m
  | _ => ∅
  end.

(** The spec's words for the options of the object [forRemoved] returns:
    the caller's options "extended by the extra query parameter
    showRemoved=1".  Every option of [old] is kept in [new], the extra
    query parameters it carries among them, and [showRemoved] = [1] is
    added to those. *)
Definition extended_by_showRemoved (old new : IOptions) : Prop :=
  (forall k, k <> "extraParameters" -> new !! k = old !! k) /\
  extra_parameters new = <[ "showRemoved" := "1" ]> (extra_parameters old).

End UserAPI.

(** ** Sample values for the examples *)

Module Samples.
Import BehavioralPrompts JS UserAPI.

(** A guard that knows three tips. *)
Definition tip_names : list string := ["tipA"; "tipB"; "tipC"].

Definition sample_guard (s : string) : bool := bool_decide (s ∈ tip_names).

(** A desktop screen with surveying enabled. *)
Definition desktop : Env := {| survey := true; narrowScreen := false |}.

Definition plain : AttachOptions :=
  {| hideArrow := None; popupOptions := None; onDispose := None |}.

(** A peer that counts the calls it receives and answers every one with
    the same response: status [st] and the text [txt]. *)
Definition answering (st : Z) (txt : string) (w : nat) (c : BaseCall)
    : nat * (Exn + answer c) :=
  (S w,
   match c return Exn + answer c with
   | request _ _ => inr {| status := st; text := txt |}
   | requestJson _ _ => inr (JObj [("uploadId", JNum 7)])
   | fetch _ _ => inr {| status := st; text := txt |}
   | requestAxios _ _ => inr {| data := JStr txt |}
   end).

(** A home server and a document worker. *)
Definition home : UserAPIImpl :=
  {| _homeUrl := "https://docs.example.com/";
     _options := {[ "headers" := VHeaders [("Authorization", "Bearer key")] ]} |}.

Definition worker : DocWorkerAPIImpl :=
  {| url := "https://worker.example.com"; worker_options := ∅ |}.

End Samples.

(** ** Scenarios and observations used by the further properties *)

Module Scenarios.
Import BehavioralPrompts JS UserAPI.

(** A request made while surveying is disabled or the screen is narrow;
    popup events count as such. *)
Definition env_hides (e : Event) : Prop :=
  match e with
  | QueueTip env _ _ _ => survey env = false \/ narrowScreen env = true
  | _ => True
  end.

(** The user closes the popup opened last. *)
Definition close_latest (m : Manager) : Manager :=
  close (pred (length (popups m))) m.

(** The user closes the popup opened last, [n] times in a row. *)
Fixpoint drain (n : nat) (m : Manager) : Manager :=
  match n with
  | O => m
  | S n' => drain n' (close_latest m)
  end.

(** The URL a primitive call is made to. *)
Definition input_of (c : BaseCall) : string :=
  match c with
  | request input _ | requestJson input _ | fetch input _ | requestAxios input _ => input
  end.

Section Receivers.

Variable isClient : bool.
Variable addCurrentOrgToPath : string -> string.

(** The URL the receiver of a call stands for: [getBaseUrl()] of a
    [UserAPIImpl], [url] of a [DocWorkerAPIImpl], and the document URL built
    by the constructor of a [DocAPIImpl]. *)
Definition receiver_url (i : Invocation) : string :=
  match i with
  | call_importDocToWorkspace this _ _ _ | call_upload this _ _
  | call_downloadDoc this _ _ | call_copyDoc this _ _ _ => url this
  | call_getRows this _ | call_updateRows this _ _ | call_addRows this _ _
  | call_replace this _ | call_getSnapshots this | call_forceReload this
  | call_compareState this _ => doc_url this
  | call_getSessionActive this | call_setSessionActive this _
  | call_getSessionAll this | call_getOrgs this _ | call_getWorkspace this _
  | call_getOrg this _ | call_getOrgWorkspaces this _ | call_getDoc this _
  | call_newOrg this _ | call_newWorkspace this _ _ | call_newDoc this _ _
  | call_newUnsavedDoc this _ | call_renameOrg this _ _
  | call_renameWorkspace this _ _ | call_renameDoc this _ _
  | call_updateDoc this _ _ | call_deleteOrg this _ | call_deleteWorkspace this _
  | call_softDeleteWorkspace this _ | call_undeleteWorkspace this _
  | call_deleteDoc this _ | call_softDeleteDoc this _ | call_undeleteDoc this _
  | call_updateOrgPermissions this _ _ | call_updateWorkspacePermissions this _ _
  | call_updateDocPermissions this _ _ | call_getOrgAccess this _
  | call_getWorkspaceAccess this _ | call_getDocAccess this _ | call_pinDoc this _
  | call_unpinDoc this _ | call_moveDoc this _ _ | call_getUserProfile this
  | call_updateUserName this _ | call_getWorker this _ | call_getWorkerAPI this _
  | call_fetchApiKey this | call_createApiKey this | call_deleteApiKey this
  | call_getTable this _ _ | call_applyUserActions this _ _
  | call_importUnsavedDoc this _ _ | call_deleteUser this _ _ =>
      getBaseUrl isClient addCurrentOrgToPath this
  end.

End Receivers.

(** [copyDoc] hands its URL to the platform's [URL] first. *)
Definition is_copyDoc (i : Invocation) : Prop :=
  match i with
  | call_copyDoc _ _ _ _ => True
  | _ => False
  end.

(** A home server that names a document worker, in front of a worker that
    answers every request with status [st] and text [txt]. *)
Definition assigning (base : string) (st : Z) (txt : string) (w : nat) (c : BaseCall)
    : nat * (Exn + answer c) :=
  (S w,
   match c return Exn + answer c with
   | request _ _ => inr {| status := st; text := txt |}
   | requestJson _ _ => inr (JObj [("docWorkerUrl", JStr base)])
   | fetch _ _ => inr {| status := st; text := txt |}
   | requestAxios _ _ => inr {| data := JStr txt |}
   end).

End Scenarios.

(** ** Properties of the behavioral-prompts manager *)

Module BehavioralPromptsProofs.
Import BehavioralPrompts.

(** *** JavaScript sets *)

Lemma elem_of_set_add (x y : string) (s : list string) :
  y ∈ set_add x s <-> y = x \/ y ∈ s.
Proof.
  unfold set_add. case_bool_decide as Hx.
  - split; [auto | intros [-> | H]; assumption].
  - rewrite elem_of_app, list_elem_of_singleton. tauto.
Qed.

Lemma elem_of_foldl_set_add (l acc : list string) (y : string) :
  y ∈ foldl (fun s x => set_add x s) acc l <-> y ∈ acc \/ y ∈ l.
Proof.
  revert acc. induction l as [|x l IH]; intros acc; simpl.
  - rewrite elem_of_nil. tauto.
  - rewrite IH, elem_of_set_add, elem_of_cons. tauto.
Qed.

Lemma elem_of_new_Set (l : list string) (y : string) :
  y ∈ new_Set l <-> y ∈ l.
Proof.
  unfold new_Set. rewrite elem_of_foldl_set_add, elem_of_nil. tauto.
Qed.

Lemma foldl_set_add_NoDup (l acc : list string) :
  NoDup (acc ++ l) -> foldl (fun s x => set_add x s) acc l = acc ++ l.
Proof.
  revert acc. induction l as [|x l IH]; intros acc Hnd; simpl.
  - by rewrite app_nil_r.
  - assert (Hx : x ∉ acc).
    { apply NoDup_app in Hnd as (_ & Hdisj & _).
      intros Hin. apply (Hdisj x Hin). left. }
    unfold set_add at 2. rewrite bool_decide_eq_false_2 by done.
    rewrite IH; rewrite <- app_assoc; done.
Qed.

Lemma set_add_NoDup (x : string) (s : list string) :
  NoDup s -> NoDup (set_add x s).
Proof.
  intros Hs. unfold set_add. case_bool_decide as Hx; [done|].
  apply NoDup_app. split_and!; [done | | apply NoDup_singleton].
  intros y Hy ->%list_elem_of_singleton. contradiction.
Qed.

Lemma foldl_set_add_keeps_NoDup (l acc : list string) :
  NoDup acc -> NoDup (foldl (fun s x => set_add x s) acc l).
Proof.
  revert acc. induction l as [|x l IH]; intros acc Hacc; simpl; [done|].
  apply IH, set_add_NoDup, Hacc.
Qed.

Lemma new_Set_NoDup (l : list string) : NoDup (new_Set l).
Proof. apply foldl_set_add_keeps_NoDup, NoDup_nil_2. Qed.

Lemma new_Set_fixed (s : list string) : NoDup s -> new_Set s = s.
Proof. intros Hs. unfold new_Set. by rewrite foldl_set_add_NoDup. Qed.

Lemma set_add_again (x : string) (s : list string) :
  set_add x (set_add x s) = set_add x s.
Proof.
  unfold set_add at 1. rewrite bool_decide_eq_true_2; [done|].
  apply elem_of_set_add. by left.
Qed.

(** *** Marking a tip as seen *)

(** C10: after [_markAsSeen p] the preference [dismissedTips] holds [p] and
    every tip it held before; when [p] was already there the set of
    dismissed tips is the same as before; and marking [p] a second time
    changes nothing at all. *)
Theorem markAsSeen_monotone_idempotent (p : BehavioralPrompt) (m : Manager) :
  let before := dismissedTips (_prefs m) in
  let after := dismissedTips (_prefs (_markAsSeen p m)) in
  p ∈ after /\
  (forall q, q ∈ before -> q ∈ after) /\
  (p ∈ before -> forall q, q ∈ after <-> q ∈ before) /\
  _markAsSeen p (_markAsSeen p m) = _markAsSeen p m.
Proof.
  simpl. split_and!.
  - apply elem_of_set_add. by left.
  - intros q Hq. apply elem_of_set_add. right. by apply elem_of_new_Set.
  - intros Hp q. rewrite elem_of_set_add, elem_of_new_Set.
    split; [intros [-> | H]; done | auto].
  - unfold _markAsSeen. simpl. do 2 f_equal.
    rewrite new_Set_fixed by apply set_add_NoDup, new_Set_NoDup.
    apply set_add_again.
Qed.

Section ManagerFacts.

Variable guard : string -> bool.

Local Abbreviation hidden := (hidden guard).
Local Abbreviation hasSeenTip := (hasSeenTip guard).
Local Abbreviation _queueTip := (_queueTip guard).
Local Abbreviation showTip := (showTip guard).
Local Abbreviation attachTip := (attachTip guard).
Local Abbreviation step := (step guard).
Local Abbreviation run := (run guard).
Local Abbreviation pushed := (pushed guard).
Local Abbreviation pushed_by := (pushed_by guard).

(** *** The visibility checks *)

Lemma hidden_true_iff (env : Env) (p : BehavioralPrompt) (m : Manager) :
  hidden env p m = true <->
  survey env = false \/ narrowScreen env = true \/
  dontShowTips (_prefs m) = true \/ hasSeenTip m p = true.
Proof.
  unfold BehavioralPrompts.hidden.
  rewrite !orb_true_iff, negb_true_iff. tauto.
Qed.

(** A request for a hidden tip leaves the manager as it is: the queue is
    unchanged and no popup is opened, through [showTip] and through the
    function returned by [attachTip] alike. *)
Lemma queueTip_gated (env : Env) (el : Element) (p : BehavioralPrompt)
    (o : AttachOptions) (m : Manager) :
  survey env = false \/ narrowScreen env = true \/
  dontShowTips (_prefs m) = true \/ hasSeenTip m p = true ->
  showTip env el p o m = m /\ attachTip p o el env m = m.
Proof.
  intros H%hidden_true_iff.
  unfold BehavioralPrompts.showTip, BehavioralPrompts.attachTip,
    BehavioralPrompts._queueTip.
  by rewrite H.
Qed.

(** Once [_markAsSeen p] has run, [hasSeenTip p] holds for a [p] that the
    guard accepts. *)
Lemma hasSeenTip_markAsSeen (p : BehavioralPrompt) (m : Manager) :
  guard p = true -> hasSeenTip (_markAsSeen p m) p = true.
Proof.
  intros Hg. unfold BehavioralPrompts.hasSeenTip, _dismissedTips.
  apply bool_decide_eq_true_2, elem_of_new_Set, list_elem_of_filter.
  split; [done|]. simpl. apply elem_of_set_add. by left.
Qed.

(** What an accepted request does. *)
Lemma queueTip_accepted (env : Env) (el : Element) (p : BehavioralPrompt)
    (o : AttachOptions) (m : Manager) :
  hidden env p m = false ->
  let t := {| prompt := p; refElement := el; options := o |} in
  _prefs (_queueTip env el p o m) = _prefs m /\
  _queuedTips (_queueTip env el p o m) = _queuedTips m ++ [t] /\
  popups (_queueTip env el p o m) =
    popups m ++ (if bool_decide (_queuedTips m = [])
                 then [{| tip := t; disposed := false |}] else []).
Proof.
  intros H. unfold BehavioralPrompts._queueTip. rewrite H. simpl.
  destruct (_queuedTips m) as [|t0 q] eqn:Hq; simpl.
  - done.
  - rewrite length_app. simpl.
    replace (1 <? S (length q + 1)) with true
      by (symmetry; apply Nat.ltb_lt; lia).
    simpl. by rewrite app_nil_r.
Qed.

Lemma showNextQueuedTip_spec (m : Manager) :
  _prefs (_showNextQueuedTip m) = _prefs m /\
  _queuedTips (_showNextQueuedTip m) = tail (_queuedTips m) /\
  popups (_showNextQueuedTip m) =
    popups m ++ ((fun t => {| tip := t; disposed := false |}) <$>
                 take 1 (tail (_queuedTips m))).
Proof.
  unfold _showNextQueuedTip. simpl.
  destruct (tail (_queuedTips m)) as [|t q] eqn:Hq; simpl.
  - by rewrite app_nil_r.
  - done.
Qed.

Lemma fmap_tip_alter_dispose (ctl : nat) (l : list Popup) :
  tip <$> alter dispose ctl l = tip <$> l.
Proof.
  revert ctl. induction l as [|pp l IH]; intros [|ctl]; simpl; try done.
  f_equal. apply IH.
Qed.

(** What the closing of a popup that is on screen does. *)
Lemma close_live (ctl : nat) (pp : Popup) (m : Manager) :
  popups m !! ctl = Some pp -> disposed pp = false ->
  _prefs (close ctl m) = _prefs m /\
  _queuedTips (close ctl m) = tail (_queuedTips m) /\
  popups (close ctl m) =
    alter dispose ctl (popups m) ++
      ((fun t => {| tip := t; disposed := false |}) <$> take 1 (tail (_queuedTips m))).
Proof.
  intros Hpp Hd. unfold close. rewrite Hpp, Hd.
  exact (showNextQueuedTip_spec
           {| _prefs := _prefs m; _queuedTips := _queuedTips m;
              popups := alter dispose ctl (popups m) |}).
Qed.

Lemma close_other (ctl : nat) (m : Manager) :
  (forall pp, popups m !! ctl = Some pp -> disposed pp = true) ->
  close ctl m = m.
Proof.
  intros H. unfold close. destruct (popups m !! ctl) as [pp|] eqn:Hpp; [|done].
  by rewrite (H pp).
Qed.

(** *** One popup at a time *)

Lemma oat_init (prefs : BehavioralPromptPrefs) : one_at_a_time (init prefs).
Proof. split; simpl; [done | done | intros; apply Forall_nil_2]. Qed.

Lemma oat_showing (m : Manager) (L : list Popup) (t : QueuedTip) (q : list QueuedTip) :
  Forall (fun pp => disposed pp = true) L ->
  popups m = L ++ [{| tip := t; disposed := false |}] ->
  _queuedTips m = t :: q ->
  one_at_a_time m.
Proof.
  intros HL Hpop Hq. split.
  - intros i pp Hi Hlive. rewrite Hpop in Hi |- *.
    apply lookup_app_Some in Hi as [Hi | [Hge Hi]].
    + rewrite Forall_lookup in HL. specialize (HL i pp Hi). congruence.
    + apply list_lookup_singleton_Some in Hi as [Hi _].
      rewrite length_app. simpl. lia.
  - intros t' q' Hq'. rewrite Hq in Hq'. injection Hq' as <- <-.
    eexists. rewrite Hpop, last_snoc. done.
  - intros Hq'. congruence.
Qed.

Lemma oat_nothing_live (m : Manager) :
  Forall (fun pp => disposed pp = true) (popups m) ->
  _queuedTips m = [] ->
  one_at_a_time m.
Proof.
  intros HL Hq. split.
  - intros i pp Hi Hlive. rewrite Forall_lookup in HL.
    specialize (HL i pp Hi). congruence.
  - intros t q Hq'. congruence.
  - done.
Qed.

Lemma oat_same_popups (m m' : Manager) :
  one_at_a_time m ->
  popups m' = popups m ->
  head (_queuedTips m') = head (_queuedTips m) \/
    (_queuedTips m' = [] /\ dontShowTips (_prefs m') = true) ->
  (dontShowTips (_prefs m') = false -> dontShowTips (_prefs m) = false) ->
  one_at_a_time m'.
Proof.
  intros [HA HB HC] Hpop Hq Hd. split.
  - rewrite Hpop. apply HA.
  - intros t q Hq'. rewrite Hpop.
    destruct Hq as [Hq | [Hq _]]; [|congruence].
    rewrite Hq' in Hq. simpl in Hq.
    destruct (_queuedTips m) as [|t0 q0] eqn:E; [done|].
    injection Hq as ->. by apply (HB t0 q0).
  - intros Hq' Hd'. rewrite Hpop.
    destruct Hq as [Hq | [_ Hq]]; [|congruence].
    rewrite Hq' in Hq. simpl in Hq.
    destruct (_queuedTips m) as [|t0 q0] eqn:E; [|done].
    by apply HC, Hd.
Qed.

Lemma hidden_false_dontShowTips (env : Env) (p : BehavioralPrompt) (m : Manager) :
  hidden env p m = false -> dontShowTips (_prefs m) = false.
Proof.
  unfold BehavioralPrompts.hidden. rewrite !orb_false_iff. tauto.
Qed.

Lemma all_disposed_after_close (ctl : nat) (pp : Popup) (m : Manager) :
  one_at_a_time m ->
  popups m !! ctl = Some pp -> disposed pp = false ->
  Forall (fun pp => disposed pp = true) (alter dispose ctl (popups m)).
Proof.
  intros [HA _ _] Hpp Hlive. apply Forall_lookup. intros i pp' Hi.
  destruct (decide (ctl = i)) as [<- | Hne].
  - rewrite list_lookup_alter_eq, Hpp in Hi. by injection Hi as <-.
  - rewrite list_lookup_alter_ne in Hi by done.
    destruct (disposed pp') eqn:E; [done|].
    pose proof (HA _ _ Hi E). pose proof (HA _ _ Hpp Hlive). lia.
Qed.

Lemma oat_step (m : Manager) (e : Event) :
  one_at_a_time m -> one_at_a_time (step m e).
Proof.
  intros Hm. destruct e as [env el p o | ctl dontShow | ctl]; simpl.
  - destruct (hidden env p m) eqn:Hh.
    { unfold BehavioralPrompts._queueTip. by rewrite Hh. }
    destruct (queueTip_accepted env el p o m Hh) as (Hp & Hq & Hpop).
    destruct (_queuedTips m) as [|t0 q0] eqn:E; simpl in Hq, Hpop.
    + eapply oat_showing; [|exact Hpop|exact Hq].
      apply (oat_idle m Hm E), (hidden_false_dontShowTips env p), Hh.
    + rewrite app_nil_r in Hpop.
      apply (oat_same_popups m); [done | done | | by rewrite Hp].
      left. by rewrite Hq, E.
  - destruct (popups m !! ctl) as [pp|]; [|done].
    destruct dontShow; apply (oat_same_popups m); simpl; auto.
    discriminate.
  - destruct (popups m !! ctl) as [pp|] eqn:Hpp;
      [|by rewrite close_other by (intros ? ?; congruence)].
    destruct (disposed pp) eqn:Hlive;
      [by rewrite close_other by (intros ? ?; congruence)|].
    destruct (close_live ctl pp m Hpp Hlive) as (Hp & Hq & Hpop).
    pose proof (all_disposed_after_close ctl pp m Hm Hpp Hlive) as HL.
    destruct (tail (_queuedTips m)) as [|t1 q1] eqn:E; simpl in Hpop.
    + rewrite app_nil_r in Hpop.
      apply oat_nothing_live; [by rewrite Hpop | done].
    + eapply oat_showing; [exact HL | exact Hpop | exact Hq].
Qed.

Lemma oat_run (evs : list Event) (m : Manager) :
  one_at_a_time m -> one_at_a_time (run evs m).
Proof.
  revert m. induction evs as [|e evs IH]; intros m Hm; simpl; [done|].
  apply IH, oat_step, Hm.
Qed.




(** *** The order in which tips are shown *)

Lemma in_order_prefix (m : Manager) (P : list QueuedTip) :
  in_order m P -> shown m `prefix_of` P.
Proof.
  intros [H0 H1]. destruct (dontShowTips (_prefs m)).
  - by apply H1.
  - rewrite H0 by done. by apply prefix_app_r.
Qed.

Lemma take_1_tail {A} (l : list A) : take 1 l ++ tail l = l.
Proof. by destruct l. Qed.

Lemma shown_close_live (ctl : nat) (pp : Popup) (m : Manager) :
  popups m !! ctl = Some pp -> disposed pp = false ->
  shown (close ctl m) = shown m ++ take 1 (tail (_queuedTips m)).
Proof.
  intros Hpp Hlive. destruct (close_live ctl pp m Hpp Hlive) as (_ & _ & Hpop).
  unfold shown. rewrite Hpop, fmap_app, fmap_tip_alter_dispose. f_equal.
  rewrite <- list_fmap_compose. apply list_fmap_id.
Qed.

Lemma in_order_step (m : Manager) (P : list QueuedTip) (e : Event) :
  in_order m P -> in_order (step m e) (P ++ pushed_by m e).
Proof.
  intros HJ. pose proof (in_order_prefix m P HJ) as Hpre. destruct HJ as [H0 H1].
  destruct e as [env el p o | ctl dontShow | ctl]; simpl.
  - destruct (hidden env p m) eqn:Hh.
    { unfold BehavioralPrompts._queueTip. rewrite Hh, app_nil_r. by split. }
    destruct (queueTip_accepted env el p o m Hh) as (Hp & Hq & Hpop).
    pose proof (hidden_false_dontShowTips env p m Hh) as Hd.
    split; rewrite Hp; [intros _ | congruence].
    unfold shown. rewrite Hq, Hpop, (H0 Hd), fmap_app.
    destruct (_queuedTips m) as [|t0 q0]; simpl.
    + by rewrite !app_nil_r.
    + by rewrite !app_nil_r, app_assoc.
  - rewrite app_nil_r. destruct (popups m !! ctl) as [pp|]; [|by split].
    destruct dontShow; simpl.
    + split; [discriminate | by split].
    + by split.
  - rewrite app_nil_r.
    destruct (popups m !! ctl) as [pp|] eqn:Hpp;
      [|rewrite close_other by (intros ? ?; congruence); by split].
    destruct (disposed pp) eqn:Hlive;
      [rewrite close_other by (intros ? ?; congruence); by split|].
    destruct (close_live ctl pp m Hpp Hlive) as (Hp & Hq & _).
    unfold in_order. rewrite (shown_close_live ctl pp m Hpp Hlive), Hp, Hq.
    split; intros Hd.
    + rewrite (H0 Hd), <- app_assoc. f_equal. symmetry. apply take_1_tail.
    + destruct (H1 Hd) as [Hnil Hpre']. rewrite Hnil. simpl.
      by rewrite app_nil_r.
Qed.

Lemma in_order_run (evs : list Event) (m : Manager) (P : list QueuedTip) :
  in_order m P -> in_order (run evs m) (P ++ pushed evs m).
Proof.
  revert m P. induction evs as [|e evs IH]; intros m P HJ; simpl.
  - by rewrite app_nil_r.
  - rewrite app_assoc. apply IH, in_order_step, HJ.
Qed.

Lemma in_order_init (prefs : BehavioralPromptPrefs) : in_order (init prefs) [].
Proof. split; [done|]. intros _. split; [done|]. apply prefix_nil. Qed.

(** C4: tips are shown first in, first out, one dismissal at a time.  In
    every state the manager can reach, a request that passes the
    visibility checks is appended to the queue, and its popup opens at once
    exactly when the queue was empty; the closing of the popup on screen
    removes the head of the queue and opens the popup of the new head, if
    there is one; the tips shown so far are a prefix of the tips queued so
    far, in the order of queuing; and every popup but the latest has been
    closed. *)
Theorem tips_shown_first_in_first_out (prefs : BehavioralPromptPrefs)
    (evs : list Event) (env : Env) (el : Element) (p : BehavioralPrompt)
    (o : AttachOptions) :
  let m := run evs (init prefs) in
  let t := {| prompt := p; refElement := el; options := o |} in
  hidden env p m = false ->
  (_queuedTips (showTip env el p o m) = _queuedTips m ++ [t] /\
   (_queuedTips m = [] -> shown (showTip env el p o m) = shown m ++ [t]) /\
   (_queuedTips m <> [] -> shown (showTip env el p o m) = shown m)) /\
  (forall ctl pp, popups m !! ctl = Some pp -> disposed pp = false ->
     _queuedTips (step m (PopupClose ctl)) = tail (_queuedTips m) /\
     shown (step m (PopupClose ctl)) = shown m ++ take 1 (tail (_queuedTips m))) /\
  shown m `prefix_of` pushed evs (init prefs) /\
  (forall i pp, popups m !! i = Some pp -> S i < length (popups m) ->
     disposed pp = true).
Proof.
  intros m t Hh. split_and!.
  - by destruct (queueTip_accepted env el p o m Hh) as (_ & Hq & _).
  - intros Hnil. destruct (queueTip_accepted env el p o m Hh) as (_ & _ & Hpop).
    unfold shown, BehavioralPrompts.showTip. rewrite Hpop, fmap_app.
    by rewrite bool_decide_eq_true_2.
  - intros Hne. destruct (queueTip_accepted env el p o m Hh) as (_ & _ & Hpop).
    unfold shown, BehavioralPrompts.showTip. rewrite Hpop, fmap_app.
    rewrite bool_decide_eq_false_2 by done. simpl. by rewrite app_nil_r.
  - intros ctl pp Hpp Hlive. simpl. split.
    + by destruct (close_live ctl pp m Hpp Hlive) as (_ & Hq & _).
    + by apply (shown_close_live ctl pp).
  - apply in_order_prefix.
    apply (in_order_run evs (init prefs) []), in_order_init.
  - intros i pp Hi Hlt. destruct (disposed pp) eqn:E; [done|].
    pose proof (oat_latest m (oat_run evs _ (oat_init prefs)) i pp Hi E). lia.
Qed.


(** *** "Don't show tips" *)

Lemma off_step (m : Manager) (e : Event) :
  dontShowTips (_prefs m) = true -> _queuedTips m = [] ->
  dontShowTips (_prefs (step m e)) = true /\ _queuedTips (step m e) = [] /\
  shown (step m e) = shown m.
Proof.
  intros Hd Hq. destruct e as [env el p o | ctl dontShow | ctl]; simpl.
  - assert (He : _queueTip env el p o m = m).
    { refine (proj1 (queueTip_gated env el p o m _)). auto. }
    by rewrite He.
  - destruct (popups m !! ctl) as [pp|]; [|done].
    by destruct dontShow.
  - destruct (popups m !! ctl) as [pp|] eqn:Hpp;
      [|by rewrite close_other by (intros ? ?; congruence)].
    destruct (disposed pp) eqn:Hlive;
      [by rewrite close_other by (intros ? ?; congruence)|].
    destruct (close_live ctl pp m Hpp Hlive) as (Hp & Hq' & _).
    rewrite (shown_close_live ctl pp m Hpp Hlive), Hp, Hq', Hq. simpl.
    by rewrite app_nil_r.
Qed.

Lemma off_run (evs : list Event) (m : Manager) :
  dontShowTips (_prefs m) = true -> _queuedTips m = [] ->
  dontShowTips (_prefs (run evs m)) = true /\ _queuedTips (run evs m) = [] /\
  shown (run evs m) = shown m.
Proof.
  revert m. induction evs as [|e evs IH]; intros m Hd Hq; simpl; [done|].
  destruct (off_step m e Hd Hq) as (Hd' & Hq' & Hs).
  destruct (IH _ Hd' Hq') as (? & ? & ?). split_and!; congruence.
Qed.

(** C8: when the popup of a tip reports that it was closed with "don't
    show tips" checked, the preference [dontShowTips] becomes true and the
    queue becomes empty; whatever happens afterwards, the preference stays
    true, the queue stays empty and no further popup is opened, so none of
    the tips that were waiting is shown. *)
Theorem dontShowTips_clears_the_queue (m : Manager) (ctl : nat) (pp : Popup)
    (evs : list Event) :
  popups m !! ctl = Some pp ->
  let m' := step m (PopupOnClose ctl true) in
  dontShowTips (_prefs m') = true /\ _queuedTips m' = [] /\ shown m' = shown m /\
  dontShowTips (_prefs (run evs m')) = true /\ _queuedTips (run evs m') = [] /\
  shown (run evs m') = shown m.
Proof.
  intros Hpp m'. assert (Hm' : m' = onClose (prompt (tip pp)) true m).
  { unfold m'. simpl. by rewrite Hpp. }
  assert (Hd : dontShowTips (_prefs m') = true) by by rewrite Hm'.
  assert (Hq : _queuedTips m' = []) by by rewrite Hm'.
  assert (Hs : shown m' = shown m) by by rewrite Hm'.
  destruct (off_run evs m' Hd Hq) as (? & ? & ?).
  split_and!; congruence.
Qed.

End ManagerFacts.

End BehavioralPromptsProofs.

(** ** The manager on concrete runs *)

Module BehavioralPromptsExamples.
Import BehavioralPrompts BehavioralPromptsProofs Samples.

(** C3: the same tip is requested for two elements before the first popup
    is dismissed.  The user dismisses the first popup, which records the tip
    as seen, and the popup closes; the manager then opens a popup for the
    same tip again. *)
Theorem dismissed_tip_is_shown_again :
  let m := run sample_guard
             [QueueTip desktop 1 "tipA" plain; QueueTip desktop 2 "tipA" plain;
              PopupOnClose 0 false]
             (init defaultValue) in
  hasSeenTip sample_guard m "tipA" = true /\
  shown (step sample_guard m (PopupClose 0)) =
    shown m ++ [{| prompt := "tipA"; refElement := 2; options := plain |}].
Proof. vm_compute. done. Qed.


Lemma tips_shown_first_in_first_out_witness :
  let evs := [QueueTip desktop 1 "tipA" plain; QueueTip desktop 2 "tipB" plain;
              PopupClose 0] in
  shown (run sample_guard evs (init defaultValue))
    `prefix_of` pushed sample_guard evs (init defaultValue).
Proof.
  intros evs.
  refine (proj1 (proj2 (proj2
    (tips_shown_first_in_first_out sample_guard defaultValue evs desktop 3 "tipC" plain _)))).
  reflexivity.
Defined.

Lemma dontShowTips_clears_the_queue_witness :
  let m := run sample_guard
             [QueueTip desktop 1 "tipA" plain; QueueTip desktop 2 "tipB" plain]
             (init defaultValue) in
  let m' := step sample_guard m (PopupOnClose 0 true) in
  _queuedTips m = [{| prompt := "tipA"; refElement := 1; options := plain |};
                   {| prompt := "tipB"; refElement := 2; options := plain |}] /\
  shown (run sample_guard [PopupClose 0; QueueTip desktop 3 "tipC" plain] m') = shown m.
Proof.
  intros m m'. split; [reflexivity|].
  refine (proj2 (proj2 (proj2 (proj2 (proj2
    (dontShowTips_clears_the_queue sample_guard m 0
       {| tip := {| prompt := "tipA"; refElement := 1; options := plain |};
          disposed := false |}
       [PopupClose 0; QueueTip desktop 3 "tipC" plain] _)))))).
  reflexivity.
Defined.

End BehavioralPromptsExamples.

(** ** Properties of the API client *)

Module UserAPIProofs.
Import JS UserAPI.

(** *** Running method bodies *)

Lemma quiet_issues_nothing {W A} (respond : W -> forall c, W * (Exn + answer c))
    (p : prog A) (w : W) :
  quiet p -> issued (exec respond p w) = [] /\ world (exec respond p w) = w.
Proof. by destruct p. Qed.

(** A body that awaits one primitive and then settles issues that one
    call, whether the primitive resolves or rejects. *)
Lemma one_call {W A} (respond : W -> forall c, W * (Exn + answer c))
    (c : BaseCall) (k : answer c -> prog A) (w : W) :
  (forall x, quiet (k x)) ->
  issued (exec respond (Call c k) w) = [c] /\
  world (exec respond (Call c k) w) = fst (respond w c).
Proof.
  intros Hk. simpl. destruct (respond w c) as [w' [e | x]]; simpl; [done|].
  destruct (quiet_issues_nothing respond (k x) w' (Hk x)) as [-> ->]. done.
Qed.

Lemma issued_await {W} (respond : W -> forall c, W * (Exn + answer c))
    (c : BaseCall) (w : W) :
  issued (exec respond (await c) w) = [c].
Proof. by apply one_call. Qed.

Lemma quiet_prop_of (json : JSValue) (k : string) : quiet (prop_of json k).
Proof. unfold prop_of. by destruct (get_prop json k). Qed.

(** The calls of a sequence are the calls of its first part followed, when
    that part resolves, by the calls of the rest. *)
Lemma exec_bind {W A B} (respond : W -> forall c, W * (Exn + answer c))
    (p : prog A) (f : A -> prog B) (w : W) :
  issued (exec respond (bind p f) w) =
  issued (exec respond p w) ++
    match settled (exec respond p w) with
    | inr a => issued (exec respond (f a) (world (exec respond p w)))
    | inl _ => []
    end.
Proof.
  revert w. induction p as [a | e | c k IH]; intros w; simpl; [done | done |].
  destruct (respond w c) as [w' [e | x]]; simpl; [done|].
  by rewrite IH.
Qed.

(** *** The encoding of [{name: name}] *)

Lemma stringify_name (name : string) :
  JSON_stringify (JObj [("name", JStr name)]) =
  Some ("{" +:+ quote "name" +:+ ":" +:+ quote name +:+ "}").
Proof. reflexivity. Qed.

Example stringify_name_plain :
  JSON_stringify (JObj [("name", JStr "Budget 2024")]) =
  Some ("{" +:+ quote "name" +:+ ":" +:+ quote "Budget 2024" +:+ "}").
Proof. reflexivity. Qed.

Example Number_toString_samples :
  Number_toString 0 = "0" /\ Number_toString 42 = "42" /\
  Number_toString 1030 = "1030" /\ Number_toString (-7) = "-7".
Proof. by vm_compute. Qed.

Section ClientFacts.

Variable isClient : bool.
Variable addCurrentOrgToPath : string -> string.
Variable URL_href : string -> list (string * string) -> option string.

Local Abbreviation getBaseUrl := (getBaseUrl isClient addCurrentOrgToPath).
Local Abbreviation renameDoc := (renameDoc isClient addCurrentOrgToPath).
Local Abbreviation updateDoc := (updateDoc isClient addCurrentOrgToPath).
Local Abbreviation getOrg := (getOrg isClient addCurrentOrgToPath).
Local Abbreviation applyUserActions := (applyUserActions isClient addCurrentOrgToPath).
Local Abbreviation invoke := (invoke isClient addCurrentOrgToPath URL_href).

(** C1: [renameDoc(docId, name)] issues exactly one request, a PATCH to
    [{baseUrl}/api/docs/{docId}] whose body is the JSON encoding of
    [{name: name}], whatever the peer answers. *)
Theorem renameDoc_issues_one_PATCH {W} (respond : W -> forall c, W * (Exn + answer c))
    (w : W) (this : UserAPIImpl) (docId name : string) :
  issued (exec respond (renameDoc this docId name) w) =
    [request (getBaseUrl this +:+ "/api/docs/" +:+ docId)
       {| method := Some PATCH;
          body := BodyText <$> JSON_stringify (JObj [("name", JStr name)]);
          headers := None; credentials := None |}] /\
  JSON_stringify (JObj [("name", JStr name)]) =
    Some ("{" +:+ quote "name" +:+ ":" +:+ quote name +:+ "}").
Proof.
  split; [|apply stringify_name].
  by apply one_call.
Qed.

(** C2: [getOrg(orgId)] issues a GET to [{baseUrl}/api/orgs/{orgId}];
    [updateDoc(docId, props)] issues a PATCH to [{baseUrl}/api/docs/{docId}]
    with the JSON encoding of [props] as body; [applyUserActions(docId,
    actions)] issues a POST to [{baseUrl}/api/docs/{docId}/apply] with the
    JSON encoding of the array [actions] as body.  Each issues that one
    request and no other. *)
Theorem methods_map_to_endpoints {W} (respond : W -> forall c, W * (Exn + answer c))
    (w : W) (this : UserAPIImpl) :
  (forall orgId,
     issued (exec respond (getOrg this orgId) w) =
       [requestJson (getBaseUrl this +:+ "/api/orgs/" +:+ render orgId)
          {| method := Some GET; body := None; headers := None;
             credentials := None |}]) /\
  (forall docId props,
     issued (exec respond (updateDoc this docId props) w) =
       [request (getBaseUrl this +:+ "/api/docs/" +:+ docId)
          {| method := Some PATCH; body := BodyText <$> JSON_stringify props;
             headers := None; credentials := None |}]) /\
  (forall docId actions,
     issued (exec respond (applyUserActions this docId actions) w) =
       [requestJson (getBaseUrl this +:+ "/api/docs/" +:+ docId +:+ "/apply")
          {| method := Some POST;
             body := BodyText <$> JSON_stringify (JArr actions);
             headers := None; credentials := None |}]).
Proof.
  split_and!; intros; by apply one_call.
Qed.

(** C6: when the request of [downloadDoc] resolves to a response that is
    not ok, [downloadDoc] rejects with an [Error] whose message is the text
    of the response body, after that one request and nothing else. *)
Theorem downloadDoc_rejects_with_body_text {W}
    (respond : W -> forall c, W * (Exn + answer c)) (w w' : W)
    (this : DocWorkerAPIImpl) (docId : string) (template : option bool)
    (resp : Response) :
  let c := request
             (url this +:+ "/download?doc=" +:+ docId +:+
              (if default false template then "&template=1" else ""))
             {| method := Some GET; body := None;
                headers := options_headers (worker_options this);
                credentials := None |} in
  respond w c = (w', inr resp) ->
  ok resp = false ->
  exec respond (downloadDoc this docId template) w =
    {| world := w'; issued := [c]; settled := inl (Error (text resp)) |}.
Proof.
  intros c Hresp Hok. unfold downloadDoc. simpl. fold c.
  rewrite Hresp. simpl. by rewrite Hok.
Qed.

(** *** Every method, one request *)

Lemma quiet_getWorkerAPI_rest (this : UserAPIImpl) (json : JSValue) :
  quiet (bind (prop_of json "docWorkerUrl")
           (fun w =>
              match w with
              | JStr base =>
                  Ret {| url := _urlWithOrg isClient addCurrentOrgToPath base;
                         worker_options := _options this |}
              | _ => Throw (TypeError "base.replace is not a function")
              end)).
Proof.
  unfold prop_of. destruct (get_prop json "docWorkerUrl") as [[]|]; done.
Qed.



(** A second call of a method issues its request again: two calls of
    [getDoc] in a row issue two requests (one, when the first call
    rejects). *)
Corollary nothing_is_cached {W} (respond : W -> forall c, W * (Exn + answer c))
    (w : W) (this : UserAPIImpl) (docId : string) :
  let getDoc := getDoc isClient addCurrentOrgToPath this docId in
  length (issued (exec respond (bind getDoc (fun _ => getDoc)) w)) =
  match settled (exec respond getDoc w) with inr _ => 2 | inl _ => 1 end.
Proof.
  intros getDoc. rewrite exec_bind, length_app.
  assert (H1 : forall w0, length (issued (exec respond getDoc w0)) = 1).
  { intros w0. exact (f_equal length (issued_await respond _ w0)). }
  rewrite H1. destruct (settled (exec respond getDoc w)); [done|].
  by rewrite H1.
Qed.

End ClientFacts.

(** *** [forRemoved] *)

(** On options that carry no extra query parameters, the options of the
    object [forRemoved] constructs are the caller's extended by
    [showRemoved] = [1]. *)
Lemma forRemoved_extends_plain_options (this : UserAPIImpl) :
  _options this !! "extraParameters" = None ->
  extended_by_showRemoved (_options this) (_options (forRemoved_instance this)).
Proof.
  intros Hnone. split.
  - intros k Hk. simpl. by rewrite lookup_insert_ne.
  - unfold extra_parameters. simpl. by rewrite lookup_insert_eq, Hnone.
Qed.

(** C9, as amended: [forRemoved], called on a live object, returns the address of a
    new object, one that was not in use; the new object has the same home
    URL, and its options are those of the original with the property
    [extraParameters] set to the map with the single entry
    [showRemoved] = [1]; the original object, and every other object, is
    left as it was. *)
Theorem forRemoved_allocates_a_copy (this : nat) (obj : UserAPIImpl) (h : Heap) :
  h !! this = Some obj ->
  exists (l : nat) (h' : Heap) (new : UserAPIImpl),
    forRemoved this h = Some (l, h') /\
    h !! l = None /\ l <> this /\
    h' !! l = Some new /\
    _homeUrl new = _homeUrl obj /\
    _options new !! "extraParameters" =
      Some (VParams {[ "showRemoved" := "1" ]}) /\
    (forall k, k <> "extraParameters" -> _options new !! k = _options obj !! k) /\
    h' !! this = Some obj /\
    (forall a, a <> l -> h' !! a = h !! a).
Proof.
  intros Hthis. unfold forRemoved. rewrite Hthis.
  set (l := fresh (dom h)).
  assert (Hl : h !! l = None) by apply not_elem_of_dom, is_fresh.
  assert (Hne : l <> this) by (intros ->; congruence).
  exists l, (<[ l := forRemoved_instance obj ]> h), (forRemoved_instance obj).
  split_and!; try done.
  - apply lookup_insert_eq.
  - apply lookup_insert_eq.
  - intros k Hk. simpl. by rewrite lookup_insert_ne.
  - by rewrite lookup_insert_ne.
  - intros a Ha. by rewrite lookup_insert_ne.
Qed.

End UserAPIProofs.

(** ** The client on concrete calls *)

Module UserAPIExamples.
Import JS UserAPI UserAPIProofs Samples.

(** The base URL of the sample server drops the trailing slash. *)
Example home_base_url : getBaseUrl false id home = "https://docs.example.com".
Proof. reflexivity. Qed.

Example renameDoc_sample :
  issued (exec (answering 200 "") (renameDoc false id home "doc1" "Budget") 0) =
  [request "https://docs.example.com/api/docs/doc1"
     {| method := Some PATCH;
        body := Some (BodyText ("{" +:+ quote "name" +:+ ":" +:+ quote "Budget" +:+ "}"));
        headers := None; credentials := None |}].
Proof. reflexivity. Qed.


Lemma downloadDoc_rejects_with_body_text_witness :
  exec (answering 404 "document not found") (downloadDoc worker "doc1" None) 0 =
  {| world := 1;
     issued := [request "https://worker.example.com/download?doc=doc1"
                  {| method := Some GET; body := None; headers := None;
                     credentials := None |}];
     settled := inl (Error "document not found") |}.
Proof.
  refine (downloadDoc_rejects_with_body_text (answering 404 "document not found")
            0 1 worker "doc1" None
            {| status := 404; text := "document not found" |} _ _);
    reflexivity.
Defined.

Lemma forRemoved_allocates_a_copy_witness :
  exists l h',
    forRemoved 3 {[ 3 := home ]} = Some (l, h') /\
    l <> 3 /\ h' !! 3 = Some home /\
    (_homeUrl <$> h' !! l) = Some "https://docs.example.com/".
Proof.
  assert (Hthis : ({[ 3 := home ]} : Heap) !! 3 = Some home) by reflexivity.
  destruct (forRemoved_allocates_a_copy 3 home {[ 3 := home ]} Hthis)
    as (l & h' & new & Hf & _ & Hne & Hnew & Hurl & _ & _ & Hold & _).
  exists l, h'. split_and!; [done | done | done |].
  rewrite Hnew. simpl. by rewrite Hurl.
Defined.

(** C9, as stated, fails: on an object whose options already carry an
    extra query parameter, the options of the new object are not the
    caller's options extended by [showRemoved] = [1], because the parameter
    that was there is gone. *)
Lemma forRemoved_drops_extra_parameters :
  ~ (forall (this l : nat) (obj new : UserAPIImpl) (h h' : Heap),
       h !! this = Some obj ->
       forRemoved this h = Some (l, h') ->
       h' !! l = Some new ->
       extended_by_showRemoved (_options obj) (_options new)).
Proof.
  intros H.
  set (obj := {| _homeUrl := "https://docs.example.com/";
                 _options := {[ "extraParameters" := VParams {[ "utm" := "x" ]} ]} |}).
  set (h := ({[ 3 := obj ]} : Heap)).
  assert (Hthis : h !! 3 = Some obj) by apply lookup_singleton_eq.
  destruct (H 3 (fresh (dom h)) obj (forRemoved_instance obj) h
              (<[ fresh (dom h) := forRemoved_instance obj ]> h) Hthis)
    as [_ Hparams].
  - unfold forRemoved. by rewrite Hthis.
  - apply lookup_insert_eq.
  - apply (f_equal (fun m : gmap string string => m !! "utm")) in Hparams.
    vm_compute in Hparams. discriminate Hparams.
Qed.

(** The options of the object [forRemoved] builds: the headers are kept,
    and a map of extra parameters that was there before is replaced. *)
Example forRemoved_instance_sample :
  let before : UserAPIImpl :=
    {| _homeUrl := "https://docs.example.com/";
       _options := <[ "extraParameters" := VParams {[ "utm" := "x" ]} ]> (_options home) |} in
  _options (forRemoved_instance before) !! "headers" = _options home !! "headers" /\
  _options (forRemoved_instance before) !! "extraParameters" =
    Some (VParams {[ "showRemoved" := "1" ]}).
Proof. split; reflexivity. Qed.

End UserAPIExamples.

(** ** Further properties of the behavioral-prompts manager *)

Module BehavioralPromptsMore.
Import BehavioralPrompts BehavioralPromptsProofs Scenarios.

(** X2: [_markAsSeen] stores a list without duplicates, whatever was stored
    before; on a stored list that had none it appends the prompt at the end
    when the prompt is new and stores the same list when it is not. *)
Theorem markAsSeen_stores_a_set (p : BehavioralPrompt) (m : Manager) :
  let before := dismissedTips (_prefs m) in
  let after := dismissedTips (_prefs (_markAsSeen p m)) in
  NoDup after /\
  (NoDup before -> p ∉ before -> after = before ++ [p]) /\
  (NoDup before -> p ∈ before -> after = before).
Proof.
  simpl. split_and!.
  - apply set_add_NoDup, new_Set_NoDup.
  - intros Hnd Hp. rewrite new_Set_fixed by done.
    unfold set_add. by rewrite bool_decide_eq_false_2.
  - intros Hnd Hp. rewrite new_Set_fixed by done.
    unfold set_add. by rewrite bool_decide_eq_true_2.
Qed.

Section MoreManagerFacts.

Variable guard : string -> bool.

Local Abbreviation hasSeenTip := (hasSeenTip guard).
Local Abbreviation showTip := (showTip guard).
Local Abbreviation attachTip := (attachTip guard).
Local Abbreviation step := (step guard).
Local Abbreviation run := (run guard).
Local Abbreviation pushed := (pushed guard).

(** X1: a tip counts as seen exactly when its name is stored in
    [dismissedTips] and the guard accepts the name; a stored name that the
    guard rejects never hides a tip. *)
Theorem hasSeenTip_iff (m : Manager) (p : BehavioralPrompt) :
  hasSeenTip m p = true <-> p ∈ dismissedTips (_prefs m) /\ guard p = true.
Proof.
  unfold BehavioralPrompts.hasSeenTip, _dismissedTips.
  rewrite bool_decide_eq_true, elem_of_new_Set, list_elem_of_filter. tauto.
Qed.

Lemma prefs_step (m : Manager) (e : Event) :
  (dontShowTips (_prefs m) = true -> dontShowTips (_prefs (step m e)) = true) /\
  (forall q, q ∈ dismissedTips (_prefs m) -> q ∈ dismissedTips (_prefs (step m e))).
Proof.
  destruct e as [env el p o | ctl dontShow | ctl]; simpl.
  - destruct (BehavioralPrompts.hidden guard env p m) eqn:Hh.
    + unfold _queueTip. by rewrite Hh.
    + destruct (queueTip_accepted guard env el p o m Hh) as (-> & _). done.
  - destruct (popups m !! ctl) as [pp|]; [|done]. split.
    + by destruct dontShow.
    + intros q Hq. simpl. apply elem_of_set_add. right. apply elem_of_new_Set.
      by destruct dontShow.
  - destruct (popups m !! ctl) as [pp|] eqn:Hpp;
      [|by rewrite close_other by (intros ? ?; congruence)].
    destruct (disposed pp) eqn:Hlive;
      [by rewrite close_other by (intros ? ?; congruence)|].
    destruct (close_live ctl pp m Hpp Hlive) as (-> & _). done.
Qed.

(** X3: the preferences only grow.  Whatever happens to the manager, a
    [dontShowTips] that is true stays true and a tip that is stored as
    dismissed stays stored. *)
Theorem prefs_only_grow (evs : list Event) (m : Manager) :
  (dontShowTips (_prefs m) = true -> dontShowTips (_prefs (run evs m)) = true) /\
  (forall q, q ∈ dismissedTips (_prefs m) -> q ∈ dismissedTips (_prefs (run evs m))).
Proof.
  revert m. induction evs as [|e evs IH]; intros m; simpl; [done|].
  destruct (prefs_step m e) as [Hd Hq], (IH (step m e)) as [Hd' Hq']. auto.
Qed.

(** X4: once the popup of a tip has reported that the user closed it, a
    later request for that tip, however much later, leaves the manager as
    it is. *)
Theorem request_after_dismissal_is_ignored (m : Manager) (ctl : nat) (pp : Popup)
    (dontShow : bool) (evs : list Event) (env : Env) (el : Element)
    (o : AttachOptions) :
  popups m !! ctl = Some pp ->
  guard (prompt (tip pp)) = true ->
  let m' := run evs (step m (PopupOnClose ctl dontShow)) in
  showTip env el (prompt (tip pp)) o m' = m' /\
  attachTip (prompt (tip pp)) o el env m' = m'.
Proof.
  intros Hpp Hg m'. apply queueTip_gated. do 3 right.
  apply hasSeenTip_iff. split; [|done].
  apply prefs_only_grow. simpl. rewrite Hpp. simpl.
  apply elem_of_set_add. by left.
Qed.

(** X5: while surveying is disabled or the screen is narrow at every
    request, the manager stays exactly as it was constructed: nothing is
    queued and no popup is opened. *)
Theorem nothing_happens_while_hidden (prefs : BehavioralPromptPrefs) (evs : list Event) :
  Forall env_hides evs -> run evs (init prefs) = init prefs.
Proof.
  induction 1 as [|e evs He _ IH]; simpl; [done|].
  replace (step (init prefs) e) with (init prefs); [done|].
  destruct e as [env el p o | ctl dontShow | ctl]; simpl in *; [|done|done].
  symmetry. refine (proj1 (queueTip_gated guard env el p o (init prefs) _)).
  tauto.
Qed.

(** X6: no accepted request is lost.  In every state the manager can
    reach, as long as [dontShowTips] is false the tips pushed so far are
    the tips shown so far followed by the tips waiting behind the head of
    the queue; and when [dontShowTips] is true no tip is waiting. *)
Theorem accepted_tips_are_shown_or_waiting (prefs : BehavioralPromptPrefs)
    (evs : list Event) :
  let m := run evs (init prefs) in
  (dontShowTips (_prefs m) = false ->
     pushed evs (init prefs) = shown m ++ tail (_queuedTips m)) /\
  (dontShowTips (_prefs m) = true -> _queuedTips m = []).
Proof.
  intros m.
  destruct (in_order_run guard evs (init prefs) [] (in_order_init prefs)) as [H0 H1].
  split; [exact H0 | intros Hd; by apply H1].
Qed.

(** X7: closing a popup twice is closing it once: the second click on the
    reference element finds the controller disposed and does nothing. *)
Theorem close_twice (ctl : nat) (m : Manager) :
  close ctl (close ctl m) = close ctl m.
Proof.
  destruct (popups m !! ctl) as [pp|] eqn:Hpp; cycle 1.
  { assert (H : close ctl m = m) by (apply close_other; intros ? ?; congruence).
    by rewrite H, H. }
  destruct (disposed pp) eqn:Hlive.
  { assert (H : close ctl m = m) by (apply close_other; intros ? ?; congruence).
    by rewrite H, H. }
  destruct (close_live ctl pp m Hpp Hlive) as (_ & _ & Hpop).
  apply close_other. intros pp' Hpp'. rewrite Hpop in Hpp'.
  rewrite lookup_app_l in Hpp'
    by (rewrite length_alter; by eapply lookup_lt_Some).
  rewrite list_lookup_alter_eq, Hpp in Hpp'. by injection Hpp' as <-.
Qed.

Lemma close_latest_head (m : Manager) (t : QueuedTip) (q : list QueuedTip) :
  one_at_a_time m -> _queuedTips m = t :: q ->
  one_at_a_time (close_latest m) /\
  _queuedTips (close_latest m) = q /\
  shown (close_latest m) = shown m ++ take 1 q.
Proof.
  intros Hm Hq. destruct (oat_head m Hm t q Hq) as (pp & Hlast & Hlive & _).
  rewrite last_lookup in Hlast. unfold close_latest. split_and!.
  - apply (oat_step guard m (PopupClose (pred (length (popups m)))) Hm).
  - destruct (close_live _ pp m Hlast Hlive) as (_ & -> & _). by rewrite Hq.
  - rewrite (shown_close_live _ pp m Hlast Hlive). by rewrite Hq.
Qed.

Lemma drain_queue (q : list QueuedTip) (t : QueuedTip) (m : Manager) :
  one_at_a_time m -> _queuedTips m = t :: q ->
  _queuedTips (drain (S (length q)) m) = [] /\
  shown (drain (S (length q)) m) = shown m ++ q.
Proof.
  revert t m. induction q as [|t1 q1 IH]; intros t m Hm Hq;
    destruct (close_latest_head m t _ Hm Hq) as (Hm' & Hq' & Hs'); simpl.
  - by rewrite Hs'.
  - destruct (IH t1 _ Hm' Hq') as [Hq'' Hs'']. split; [done|].
    simpl in Hs''. rewrite Hs'', Hs'. simpl. by rewrite <- app_assoc.
Qed.

(** X8: every waiting tip gets its turn.  From a state the manager can
    reach with a non-empty queue, closing the popup on screen as many times
    as there are tips in the queue opens the popups of all the waiting tips,
    in the order of the queue, and leaves the queue empty. *)
Theorem waiting_tips_are_all_shown (prefs : BehavioralPromptPrefs) (evs : list Event)
    (t : QueuedTip) (q : list QueuedTip) :
  let m := run evs (init prefs) in
  _queuedTips m = t :: q ->
  _queuedTips (drain (length (_queuedTips m)) m) = [] /\
  shown (drain (length (_queuedTips m)) m) = shown m ++ q.
Proof.
  intros m Hq. rewrite Hq. simpl length.
  apply (drain_queue q t m); [|done].
  apply oat_run, oat_init.
Qed.

End MoreManagerFacts.

End BehavioralPromptsMore.

(** ** Further properties of the API client *)

Module UserAPIMore.
Import JS UserAPI UserAPIProofs Scenarios.

(** *** Strings *)

Lemma append_assoc (a b c : string) : (a +:+ b) +:+ c = a +:+ (b +:+ c).
Proof.
  induction a as [|x a IH]; [done|].
  change (String x ((a +:+ b) +:+ c) = String x (a +:+ (b +:+ c))).
  by f_equal.
Qed.

Lemma append_empty_r (a : string) : a +:+ "" = a.
Proof.
  induction a as [|x a IH]; [done|].
  change (String x (a +:+ "") = String x a). by f_equal.
Qed.

Lemma strip_trailing_slash_slash (s : string) :
  strip_trailing_slash (s +:+ "/") = s.
Proof.
  induction s as [|c s IH]; [done|].
  change (String c s +:+ "/") with (String c (s +:+ "/")).
  destruct s as [|c' s']; [done|].
  change (strip_trailing_slash (String c (String c' s' +:+ "/")))
    with (String c (strip_trailing_slash (String c' s' +:+ "/"))).
  by rewrite IH.
Qed.

Lemma strip_trailing_slash_other (s : string) (c : ascii) :
  c <> "/"%char ->
  strip_trailing_slash (s +:+ String c "") = s +:+ String c "".
Proof.
  intros Hc. induction s as [|x s IH].
  - simpl. by rewrite bool_decide_eq_false_2.
  - change (String x s +:+ String c "") with (String x (s +:+ String c "")).
    destruct s as [|x' s'].
    + simpl. by rewrite bool_decide_eq_false_2.
    + change (strip_trailing_slash (String x (String x' s' +:+ String c "")))
        with (String x (strip_trailing_slash (String x' s' +:+ String c ""))).
      by rewrite IH.
Qed.

(** X9: outside the browser the base URL is the home URL without its final
    slash: exactly one slash is dropped, and a home URL that ends in any
    other character, or is empty, is used as it is.  In the browser the base
    URL is whatever [addCurrentOrgToPath] makes of the home URL. *)
Theorem base_url_drops_one_slash (addCurrentOrgToPath : string -> string)
    (u : string) (o : IOptions) :
  getBaseUrl false addCurrentOrgToPath {| _homeUrl := u +:+ "/"; _options := o |} = u /\
  (forall c, c <> "/"%char ->
     getBaseUrl false addCurrentOrgToPath
       {| _homeUrl := u +:+ String c ""; _options := o |} = u +:+ String c "") /\
  getBaseUrl false addCurrentOrgToPath {| _homeUrl := ""; _options := o |} = "" /\
  getBaseUrl true addCurrentOrgToPath {| _homeUrl := u; _options := o |} =
    addCurrentOrgToPath u.
Proof.
  split_and!; [apply strip_trailing_slash_slash | | done | done].
  intros c Hc. by apply strip_trailing_slash_other.
Qed.

Section MoreClientFacts.

Variable isClient : bool.
Variable addCurrentOrgToPath : string -> string.
Variable URL_href : string -> list (string * string) -> option string.

Local Abbreviation getBaseUrl := (getBaseUrl isClient addCurrentOrgToPath).
Local Abbreviation _urlWithOrg := (_urlWithOrg isClient addCurrentOrgToPath).
Local Abbreviation invoke := (invoke isClient addCurrentOrgToPath URL_href).
Local Abbreviation receiver_url := (receiver_url isClient addCurrentOrgToPath).
Local Abbreviation getTable := (getTable isClient addCurrentOrgToPath).
Local Abbreviation getWorkerAPI := (getWorkerAPI isClient addCurrentOrgToPath).
Local Abbreviation fetchApiKey := (fetchApiKey isClient addCurrentOrgToPath).
Local Abbreviation createApiKey := (createApiKey isClient addCurrentOrgToPath).

(** *** Outcomes *)

(** X11: the whole of [downloadDoc].  It makes one GET request to
    [{url}/download?doc={docId}], with [&template=1] appended when
    [template] is true; it rejects with the peer's error when the request
    is rejected, resolves to the response itself when the response is ok,
    and rejects with the body text otherwise. *)
Theorem downloadDoc_outcome {W} (respond : W -> forall c, W * (Exn + answer c))
    (w : W) (this : DocWorkerAPIImpl) (docId : string) (template : option bool) :
  let c := request
             (url this +:+ "/download?doc=" +:+ docId +:+
              (if default false template then "&template=1" else ""))
             {| method := Some GET; body := None;
                headers := options_headers (worker_options this);
                credentials := None |} in
  issued (exec respond (downloadDoc this docId template) w) = [c] /\
  world (exec respond (downloadDoc this docId template) w) = fst (respond w c) /\
  settled (exec respond (downloadDoc this docId template) w) =
    match snd (respond w c) with
    | inl e => inl e
    | inr resp => if ok resp then inr resp else inl (Error (text resp))
    end.
Proof.
  intros c. unfold downloadDoc. simpl. fold c.
  destruct (respond w c) as [w' [e | resp]]; simpl; [done|].
  by destruct (ok resp).
Qed.

(** X12: [fetchApiKey] and [createApiKey] do not look at the status: when
    [fetch] resolves, they resolve to the text of the response body,
    whether the response is ok or not. *)
Theorem apiKey_is_the_body_text {W} (respond : W -> forall c, W * (Exn + answer c))
    (w : W) (this : UserAPIImpl) :
  let c m := fetch (getBaseUrl this +:+ "/api/profile/apiKey")
               {| method := m; body := None; headers := None;
                  credentials := Some "include" |} in
  (issued (exec respond (fetchApiKey this) w) = [c None] /\
   settled (exec respond (fetchApiKey this) w) =
     match snd (respond w (c None)) with
     | inl e => inl e
     | inr resp => inr (text resp)
     end) /\
  (issued (exec respond (createApiKey this) w) = [c (Some POST)] /\
   settled (exec respond (createApiKey this) w) =
     match snd (respond w (c (Some POST))) with
     | inl e => inl e
     | inr resp => inr (text resp)
     end).
Proof.
  intros c. unfold fetchApiKey, createApiKey, UserAPI.fetchApiKey,
    UserAPI.createApiKey. simpl.
  subst c. cbv beta. unfold UserAPI.getBaseUrl.
  split;
    match goal with |- context [respond w ?x] => destruct (respond w x) as [w' [e | resp]] end;
    done.
Qed.

(** X15: [upload] sends the material as the form entry [upload], with the
    file name, in one POST to [{url}/uploads], and does not validate the
    answer.  It rejects, with a [TypeError], exactly when the answer is
    [null] or [undefined]; on an object it resolves to the value of
    [uploadId], which is [undefined] when the object has no such property;
    on a boolean, a number, a string or an array it resolves to
    [undefined]. *)
Theorem upload_does_not_validate {W} (respond : W -> forall c, W * (Exn + answer c))
    (w w' : W) (this : DocWorkerAPIImpl) (material : UploadType)
    (filename : option string) (json : JSValue) :
  let c := requestJson (url this +:+ "/uploads")
             {| method := Some POST;
                body := Some (BodyForm [{| entry_name := "upload";
                                           entry_value := material;
                                           entry_filename := filename |}]);
                headers := options_headers (worker_options this);
                credentials := None |} in
  let outcome := exec respond (upload this material filename) w in
  respond w c = (w', inr json) ->
  issued outcome = [c] /\
  ((exists e, settled outcome = inl e) <-> json = JNull \/ json = JUndefined) /\
  (json = JNull \/ json = JUndefined ->
     exists msg, settled outcome = inl (TypeError msg)) /\
  (forall props, json = JObj props ->
     settled outcome = inr (lookup_prop "uploadId" props)) /\
  (forall props, json = JObj props ->
     Forall (fun kv => fst kv <> "uploadId") props ->
     settled outcome = inr JUndefined) /\
  (json <> JNull -> json <> JUndefined -> (forall props, json <> JObj props) ->
     settled outcome = inr JUndefined).
Proof.
  intros c outcome Hr. unfold outcome, upload. simpl. fold c. rewrite Hr.
  assert (Hmiss : forall props, Forall (fun kv => fst kv <> "uploadId") props ->
                    lookup_prop "uploadId" props = JUndefined).
  { induction 1 as [|[k v] props Hk _ IH]; simpl; [done|].
    simpl in Hk. by rewrite bool_decide_eq_false_2. }
  split_and!.
  - unfold prop_of. by destruct (get_prop json "uploadId").
  - destruct json; simpl; split;
      first [ by intros [e He] | by intros [|] | by eexists | auto ].
  - intros [-> | ->]; by eexists.
  - by intros props ->.
  - intros props -> Hprops. unfold prop_of. simpl. by rewrite Hmiss.
  - intros Hn Hu Ho. destruct json; simpl; try done.
    by destruct (Ho props).
Qed.

(** *** Where requests go *)

(** X13: [getTable(docId, tableName)] is one request without a method or
    body to [{baseUrl}/api/docs/{docId}/tables/{tableName}/data]. *)
Theorem getTable_request {W} (respond : W -> forall c, W * (Exn + answer c))
    (w : W) (this : UserAPIImpl) (docId tableName : string) :
  issued (exec respond (getTable this docId tableName) w) =
    [requestJson (getBaseUrl this +:+ "/api/docs/" +:+ docId +:+
                  "/tables/" +:+ tableName +:+ "/data") no_init].
Proof.
  etrans; [exact (issued_await respond _ w)|].
  unfold getDocAPI, new_DocAPIImpl. cbn [doc_url]. by rewrite !append_assoc.
Qed.

Local Ltac single_call :=
  intros; apply one_call; intros;
  first [ done | apply quiet_prop_of
        | apply (quiet_getWorkerAPI_rest isClient addCurrentOrgToPath)
        | by destruct (negb _) ].

(** X14: a client only talks to its own URL.  Every request-issuing method
    other than [copyDoc] makes its call to the URL of the object it is
    called on followed by a path that begins with a slash: the base URL of a
    [UserAPIImpl], the worker URL of a [DocWorkerAPIImpl], and
    [{url}/api/docs/{docId}] for a [DocAPIImpl]. *)
Theorem requests_stay_under_the_receiver (i : Invocation) :
  is_copyDoc i \/
  exists (c : BaseCall) (path : string),
    (forall W (respond : W -> forall c, W * (Exn + answer c)) (w : W),
       issued (exec respond (projT2 (invoke i)) w) = [c]) /\
    input_of c = receiver_url i +:+ String "/" path.
Proof.
  destruct i;
    unfold invoke, UserAPI.invoke, pack, is_copyDoc, receiver_url,
      Scenarios.receiver_url; cbn [projT2];
    try (by left);
    try (right; eexists _, _; split; [single_call | reflexivity]).
  right. eexists _, _. split; [single_call|].
  unfold getDocAPI, new_DocAPIImpl. cbn [input_of doc_url].
  rewrite !append_assoc. reflexivity.
Qed.

(** X16: fetching a document through its worker is two requests, in this
    order: a GET with credentials to [{baseUrl}/api/worker/{key}], and,
    when the answer names a worker URL, a GET to
    [{worker}/download?doc={docId}] with the headers of the options the
    home client was built with. *)
Theorem worker_then_download {W} (respond : W -> forall c, W * (Exn + answer c))
    (w w1 : W) (this : UserAPIImpl) (key base docId : string) (json : JSValue) :
  let c1 := requestJson (getBaseUrl this +:+ "/api/worker/" +:+ key)
              {| method := Some GET; body := None; headers := None;
                 credentials := Some "include" |} in
  let c2 := request (_urlWithOrg base +:+ "/download?doc=" +:+ docId)
              {| method := Some GET; body := None;
                 headers := options_headers (_options this);
                 credentials := None |} in
  respond w c1 = (w1, inr json) ->
  get_prop json "docWorkerUrl" = Some (JStr base) ->
  issued (exec respond
            (wk <- getWorkerAPI this key ;; downloadDoc wk docId None) w) = [c1; c2].
Proof.
  intros c1 c2 Hr Hjson. subst c1 c2. unfold UserAPI.getBaseUrl in *.
  unfold getWorkerAPI, UserAPI.getWorkerAPI, getWorker, downloadDoc, prop_of.
  cbn [bind await exec]. rewrite Hr. cbn [bind exec issued]. rewrite Hjson.
  cbn [bind exec issued url worker_options default]. rewrite append_empty_r.
  match goal with
  | |- context [respond w1 ?c] => destruct (respond w1 c) as [w2 [e | resp]]
  end; cbn [issued]; [done|].
  by destruct (ok resp).
Qed.

End MoreClientFacts.

(** *** [forRemoved], again *)

(** X17: [forRemoved] does not accumulate.  Called on the object it
    returned, it allocates one more object, again at a fresh address, whose
    fields equal those of the object it was called on; the first object is
    still as it was. *)
Theorem forRemoved_twice (this : nat) (obj : UserAPIImpl) (h : Heap) :
  h !! this = Some obj ->
  exists (l1 l2 : nat) (h1 h2 : Heap),
    forRemoved this h = Some (l1, h1) /\
    forRemoved l1 h1 = Some (l2, h2) /\
    l2 <> l1 /\ l2 <> this /\
    h2 !! l2 = h2 !! l1 /\
    is_Some (h2 !! l1) /\
    h2 !! this = Some obj.
Proof.
  intros Hthis.
  set (l1 := fresh (dom h)).
  set (h1 := <[ l1 := forRemoved_instance obj ]> h).
  set (l2 := fresh (dom h1)).
  set (h2 := <[ l2 := forRemoved_instance (forRemoved_instance obj) ]> h1).
  assert (Hl1 : h !! l1 = None) by apply not_elem_of_dom, is_fresh.
  assert (Hl2 : h1 !! l2 = None) by apply not_elem_of_dom, is_fresh.
  assert (H11 : h1 !! l1 = Some (forRemoved_instance obj)) by apply lookup_insert_eq.
  assert (Hne1 : l1 <> this) by (intros E; rewrite E in Hl1; congruence).
  assert (H1this : h1 !! this = Some obj) by (unfold h1; by rewrite lookup_insert_ne).
  assert (Hne2 : l2 <> l1) by (intros E; rewrite E in Hl2; congruence).
  assert (Hne3 : l2 <> this) by (intros E; rewrite E in Hl2; congruence).
  exists l1, l2, h1, h2. split_and!; try done.
  - unfold forRemoved. by rewrite Hthis.
  - unfold forRemoved. by rewrite H11.
  - unfold h2. rewrite lookup_insert_eq, lookup_insert_ne, H11 by done.
    f_equal. unfold forRemoved_instance. simpl. f_equal. apply insert_insert_eq.
  - unfold h2. rewrite lookup_insert_ne by done. by rewrite H11.
  - unfold h2. by rewrite lookup_insert_ne.
Qed.

End UserAPIMore.

(** ** The further properties on concrete runs *)

Module MoreExamples.
Import BehavioralPrompts BehavioralPromptsMore JS UserAPI UserAPIMore Samples Scenarios.

Lemma request_after_dismissal_is_ignored_witness :
  let m := run sample_guard [QueueTip desktop 1 "tipA" plain] (init defaultValue) in
  let m' := run sample_guard [PopupClose 0; QueueTip desktop 2 "tipB" plain]
              (step sample_guard m (PopupOnClose 0 false)) in
  showTip sample_guard desktop 3 "tipA" plain m' = m'.
Proof.
  intros m m'.
  refine (proj1 (request_after_dismissal_is_ignored sample_guard m 0
    {| tip := {| prompt := "tipA"; refElement := 1; options := plain |};
       disposed := false |}
    false [PopupClose 0; QueueTip desktop 2 "tipB" plain] desktop 3 plain _ _));
    reflexivity.
Defined.

Lemma nothing_happens_while_hidden_witness :
  run sample_guard
    [QueueTip {| survey := false; narrowScreen := false |} 1 "tipA" plain;
     PopupClose 0;
     QueueTip {| survey := true; narrowScreen := true |} 2 "tipB" plain]
    (init defaultValue) = init defaultValue.
Proof.
  apply (nothing_happens_while_hidden sample_guard).
  constructor; [by left|]. constructor; [exact I|].
  constructor; [by right|]. constructor.
Defined.

Lemma waiting_tips_are_all_shown_witness :
  let m := run sample_guard
             [QueueTip desktop 1 "tipA" plain; QueueTip desktop 2 "tipB" plain;
              QueueTip desktop 3 "tipC" plain]
             (init defaultValue) in
  _queuedTips (drain 3 m) = [] /\
  shown (drain 3 m) =
    shown m ++ [{| prompt := "tipB"; refElement := 2; options := plain |};
                {| prompt := "tipC"; refElement := 3; options := plain |}].
Proof.
  intros m.
  refine (waiting_tips_are_all_shown sample_guard defaultValue
    [QueueTip desktop 1 "tipA" plain; QueueTip desktop 2 "tipB" plain;
     QueueTip desktop 3 "tipC" plain]
    {| prompt := "tipA"; refElement := 1; options := plain |}
    [{| prompt := "tipB"; refElement := 2; options := plain |};
     {| prompt := "tipC"; refElement := 3; options := plain |}] _).
  reflexivity.
Defined.

Lemma upload_does_not_validate_witness :
  settled (exec (answering 200 "") (upload worker (UBlob "a,b") (Some "table.csv")) 0) =
  inr (JNum 7).
Proof.
  refine (proj1 (proj2 (proj2 (proj2 (upload_does_not_validate (answering 200 "") 0 1 worker
    (UBlob "a,b") (Some "table.csv") (JObj [("uploadId", JNum 7)]) eq_refl))))
    [("uploadId", JNum 7)] eq_refl).
Defined.

Lemma worker_then_download_witness :
  issued (exec (assigning "https://worker.example.com/" 200 "")
            (wk <- getWorkerAPI false id home "doc1" ;; downloadDoc wk "doc1" None) 0) =
  [requestJson "https://docs.example.com/api/worker/doc1"
     {| method := Some GET; body := None; headers := None;
        credentials := Some "include" |};
   request "https://worker.example.com/download?doc=doc1"
     {| method := Some GET; body := None;
        headers := Some [("Authorization", "Bearer key")];
        credentials := None |}].
Proof.
  refine (worker_then_download false id (assigning "https://worker.example.com/" 200 "")
            0 1 home "doc1" "https://worker.example.com/" "doc1"
            (JObj [("docWorkerUrl", JStr "https://worker.example.com/")]) _ _);
    reflexivity.
Defined.

Lemma forRemoved_twice_witness :
  exists l1 l2 h1 h2,
    forRemoved 3 {[ 3 := home ]} = Some (l1, h1) /\
    forRemoved l1 h1 = Some (l2, h2) /\
    l2 <> l1 /\ h2 !! l2 = h2 !! l1 /\ h2 !! 3 = Some home.
Proof.
  assert (Hthis : ({[ 3 := home ]} : Heap) !! 3 = Some home) by reflexivity.
  destruct (forRemoved_twice 3 home {[ 3 := home ]} Hthis)
    as (l1 & l2 & h1 & h2 & H1 & H2 & Hne & _ & Heq & _ & Hold).
  by exists l1, l2, h1, h2.
Defined.

End MoreExamples.
